(** * lea: the run engine, the DuckDB client and script-defined views

    A shallow embedding of [lea/app/run.py], [lea/clients/duckdb.py] and
    [lea/views/python.py], and the properties of the build engine that the
    specification states about them.

    Python values are modelled as follows: [str] is [string], a tuple of
    [str] (a view key) is [list string], a [set] is a [gset], a [dict] keyed
    by view keys is an association list in insertion order (the loops of
    [run] iterate over these), the dictionary of table references is a
    [gmap], and a raised exception is the [Raise] case of [result]. *)

From Stdlib Require Import String Ascii.
From stdpp Require Import base option list gmap sets strings.

Set Warnings "-register-all".

(** ** Exceptions and the error monad *)

Inductive exn : Type :=
| ValueError
| IndexError
| AttributeError
| KeyError
| NameError (name : string)
| JobError (msg : string)
| Exception (msg : string).

Inductive result (A : Type) : Type :=
| Ok (a : A)
| Raise (e : exn).
Arguments Ok {A} a.
Arguments Raise {A} e.

Definition bind {A B : Type} (m : result A) (k : A -> result B) : result B :=
  match m with
  | Ok a => k a
  | Raise e => Raise e
  end.

Notation "x <- m ;; k" := (bind m (fun x => k))
  (at level 100, m at next level, right associativity,
   format "x  <-  m  ;;  '//' k").

#[global] Instance exn_eq_dec : EqDecision exn.
Proof. solve_decision. Defined.

#[global] Instance result_eq_dec {A} `{EqDecision A} : EqDecision (result A).
Proof. solve_decision. Defined.

(** ** The [str] methods used by the client *)

Module Str.

(** [s.startswith(p)] *)
Fixpoint startswith (p s : string) : bool :=
  match p, s with
  | EmptyString, _ => true
  | String _ _, EmptyString => false
  | String a p', String b s' => if Ascii.eqb a b then startswith p' s' else false
  end.

(** [s[n:]] *)
Fixpoint drop (n : nat) (s : string) : string :=
  match n, s with
  | O, _ => s
  | S _, EmptyString => EmptyString
  | S n', String _ s' => drop n' s'
  end.

(** The leftmost occurrence of [sep] in [s]: the text before it and the
    text after it ([s.partition(sep)] when [sep] occurs). *)
Fixpoint find_sep (sep s : string) : option (string * string) :=
  if startswith sep s then Some (EmptyString, drop (String.length sep) s)
  else match s with
       | EmptyString => None
       | String c s' =>
           match find_sep sep s' with
           | Some (before, after) => Some (String c before, after)
           | None => None
           end
       end.

(** [sub in s] *)
Definition contains (sub s : string) : bool :=
  match find_sep sub s with Some _ => true | None => false end.

(** [s.endswith(suf)] *)
Fixpoint endswith (suf s : string) : bool :=
  String.eqb suf s ||
  match s with
  | EmptyString => false
  | String _ s' => endswith suf s'
  end.

(** Cut [s] at the leftmost occurrences of [sep], at most [maxsplit]
    times. *)
Fixpoint split_upto (maxsplit : nat) (sep s : string) : list string :=
  match maxsplit with
  | O => [s]
  | S n =>
      match find_sep sep s with
      | None => [s]
      | Some (before, after) => before :: split_upto n sep after
      end
  end.

(** [s.split(sep, maxsplit)]; [None] is Python's default [maxsplit=-1]
    (no limit: a cut consumes at least one character, so [length s] cuts
    are never exceeded). An empty separator raises [ValueError]. *)
Definition split (sep : string) (maxsplit : option nat) (s : string)
  : result (list string) :=
  match sep with
  | EmptyString => Raise ValueError
  | _ => Ok (split_upto (default (String.length s) maxsplit) sep s)
  end.

(** [sep.join(l)] *)
Fixpoint join (sep : string) (l : list string) : string :=
  match l with
  | [] => EmptyString
  | [x] => x
  | x :: l' => x +:+ sep +:+ join sep l'
  end.

End Str.

(** ** lea/clients/duckdb.py *)

(** A view key: the tuple [(schema, *name)]. *)
Abbreviation view_key := (list string).

(** Modelled from the spec: [lea._SEP] (lea/__init__.py is not among the
    sources), the fixed separator that flattens the name path of a view key;
    the doctests of the client show its value, as in
    ["schema.subschema__table"]. *)
Definition _SEP : string := "__".

(** The client on a database file, after [__init__]: [path_stem] is
    [self.path.stem] and [username] is [self.username]. A client on an
    [md:] path keeps [self.path] as a string, which has no [stem]; it is
    modelled in [ClientPath] below, with the client that [__init__]
    leaves. *)
Record DuckDB : Type := {
  path_stem : string;
  username : option string
}.

(** Truth value of [self.username] ([None] and [""] are falsy). *)
Definition username_set (client : DuckDB) : bool :=
  match username client with
  | None => false
  | Some u => negb (String.eqb u "")
  end.

Definition _view_key_to_table_reference
    (client : DuckDB) (key : view_key) (with_username : bool) : result string :=
  match key with
  | [] => Raise ValueError
  | schema :: leftover =>
      let table_reference := schema +:+ "." +:+ Str.join _SEP leftover in
      if with_username && username_set client
      then Ok (path_stem client +:+ "." +:+ table_reference)
      else Ok table_reference
  end.

Definition _table_reference_to_view_key
    (client : DuckDB) (table_reference : string) : result view_key :=
  parts <- Str.split "." (Some 1) table_reference ;;
  match parts with
  | [database; leftover] =>
      if String.eqb database (path_stem client) then
        parts' <- Str.split "." (Some 1) leftover ;;
        match parts' with
        | [schema; leftover'] =>
            name <- Str.split _SEP None leftover' ;;
            Ok (schema :: name)
        | _ => Raise ValueError
        end
      else
        name <- Str.split _SEP None leftover ;;
        Ok (database :: name)
  | _ => Raise ValueError
  end.

(** [delete_view_key] issues one statement to the connection; the table it
    names is what the model records. *)
Definition delete_view_key (client : DuckDB) (key : view_key) : result string :=
  _view_key_to_table_reference client key false.

(** [list_tables]: one reference per row [(schema_name, table_name)] of
    [duckdb_tables()], prefixed by the file stem. *)
Definition list_tables (client : DuckDB) (rows : list (string * string))
  : list string :=
  map (fun row => path_stem client +:+ "." +:+ fst row +:+ "." +:+ snd row) rows.

(** ** lea/views/python.py *)

Module PythonView.

(** The constants and the nodes of [ast] that the scan can meet. *)
Inductive constant : Type :=
| CStr (s : string)
| CInt (n : Z)
| CBool (b : bool)
| CNone.

Inductive node : Type :=
| Module (body : list node)
| Expr (value : node)
| Assign (targets : list node) (value : node)
| Name (id : string)
| Constant (value : constant)
| Attribute (value : node) (attr : string)
| Subscript (value : node) (slice : node)
| Starred (value : node)
| BinOp (lhs : node) (rhs : node)
| JoinedStr (values : list node)
| Keyword (arg : option string) (value : node)
| Call (func : node) (args : list node) (keywords : list node).

(** What an attribute access evaluates to: an AST node or a plain Python
    constant (the [value] of an [ast.Constant]). *)
Inductive obj : Type :=
| ONode (n : node)
| OConst (c : constant).

(** [ast.iter_child_nodes] *)
Definition iter_child_nodes (n : node) : list node :=
  match n with
  | Module body => body
  | Expr value => [value]
  | Assign targets value => targets ++ [value]
  | Name _ => []
  | Constant _ => []
  | Attribute value _ => [value]
  | Subscript value slice => [value; slice]
  | Starred value => [value]
  | BinOp lhs rhs => [lhs; rhs]
  | JoinedStr values => values
  | Keyword _ value => [value]
  | Call func args keywords => func :: args ++ keywords
  end.

Fixpoint node_count (n : node) : nat :=
  match n with
  | Module body => S (list_sum (map node_count body))
  | Expr value => S (node_count value)
  | Assign targets value =>
      S (list_sum (map node_count targets) + node_count value)
  | Name _ => 1
  | Constant _ => 1
  | Attribute value _ => S (node_count value)
  | Subscript value slice => S (node_count value + node_count slice)
  | Starred value => S (node_count value)
  | BinOp lhs rhs => S (node_count lhs + node_count rhs)
  | JoinedStr values => S (list_sum (map node_count values))
  | Keyword _ value => S (node_count value)
  | Call func args keywords =>
      S (node_count func + list_sum (map node_count args)
         + list_sum (map node_count keywords))
  end.

(** [ast.walk]: breadth first, from a queue. *)
Fixpoint walk_queue (fuel : nat) (todo : list node) : list node :=
  match fuel, todo with
  | S fuel', n :: rest => n :: walk_queue fuel' (rest ++ iter_child_nodes n)
  | _, _ => []
  end.

Definition walk (n : node) : list node := walk_queue (node_count n) [n].

(** Attribute reads; a class without the attribute raises
    [AttributeError]. *)
Definition get_value (n : node) : result obj :=
  match n with
  | Expr value | Assign _ value | Attribute value _ | Subscript value _
  | Starred value | Keyword _ value => Ok (ONode value)
  | Constant c => Ok (OConst c)
  | _ => Raise AttributeError
  end.

Definition get_id (o : obj) : result string :=
  match o with
  | ONode (Name id) => Ok id
  | _ => Raise AttributeError
  end.

Definition get_attr (n : node) : result string :=
  match n with
  | Attribute _ attr => Ok attr
  | _ => Raise AttributeError
  end.

(** [node.args[0]] *)
Definition first_arg (args : list node) : result node :=
  match args with
  | a :: _ => Ok a
  | [] => Raise IndexError
  end.

(** [try: body except AttributeError: pass], for a body that yields. *)
Definition except_AttributeError (body : result (list string))
  : result (list string) :=
  match body with
  | Raise AttributeError => Ok []
  | r => r
  end.

Record t : Type := {
  key : view_key;
  tree : node   (** [ast.parse(self.source_code)] *)
}.

Section Dependencies.

(** [SQLView.parse_dependencies], of lea/views/sql.py. *)
Variable parse_dependencies : obj -> result (list string).

(** The [pd.read_gbq] block of the scan. *)
Definition read_gbq_block (n : node) : result (list string) :=
  match n with
  | Call func args _ =>
      v <- get_value func ;;
      id <- get_id v ;;
      if String.eqb id "pd" then
        attr <- get_attr func ;;
        if String.eqb attr "read_gbq" then
          a <- first_arg args ;;
          q <- get_value a ;;
          parse_dependencies q
        else Ok []
      else Ok []
  | _ => Ok []
  end.

(** The [.query] block of the scan. *)
Definition query_block (n : node) : result (list string) :=
  match n with
  | Call func args _ =>
      attr <- get_attr func ;;
      if Str.startswith "query" attr then
        a <- first_arg args ;;
        q <- get_value a ;;
        parse_dependencies q
      else Ok []
  | _ => Ok []
  end.

(** The generator [_dependencies], consumed node by node. *)
Fixpoint scan (nodes : list node) : result (list string) :=
  match nodes with
  | [] => Ok []
  | n :: rest =>
      r1 <- except_AttributeError (read_gbq_block n) ;;
      r2 <- except_AttributeError (query_block n) ;;
      more <- scan rest ;;
      Ok (r1 ++ r2 ++ more)
  end.

Definition dependencies (view : t) : result (gset string) :=
  found <- scan (walk (tree view)) ;;
  Ok (list_to_set found).

End Dependencies.

Definition rename_table_references
    (view : t) (table_reference_mapping : option (gmap string string)) : t :=
  view.

End PythonView.

(** ** lea/app/run.py *)

(** *** What the engine reads of its collaborators *)

(** Modelled from the spec: [lea.views.View] (lea/views/base.py is not
    among the sources), as [run] reads it: its key, its declared schema and the
    value of its [dependencies] property, the table references it reads (in the
    iteration order of the set), or the exception the property raises. *)
Record View : Type := {
  key : view_key;
  schema : string;
  dependencies : result (list string)
}.

(** A script-defined view behind that interface. *)
Definition of_python_view
    (parse_dependencies : PythonView.obj -> result (list string))
    (view : PythonView.t) : View :=
  {| key := PythonView.key view;
     schema := hd EmptyString (PythonView.key view);
     dependencies :=
       found <- PythonView.dependencies parse_dependencies view ;;
       Ok (elements found) |}.

(** Python dictionaries keyed by view keys, in insertion order. *)
Module Dict.

Definition t (V : Type) : Type := list (view_key * V).

Definition keys {V} (d : t V) : list view_key := map fst d.

(** [k in d] *)
Definition mem {V} (k : view_key) (d : t V) : bool :=
  bool_decide (k ∈ keys d).

(** [d.get(k)] *)
Fixpoint get {V} (k : view_key) (d : t V) : option V :=
  match d with
  | [] => None
  | (k', v) :: d' => if decide (k = k') then Some v else get k d'
  end.

(** [d[k] = v]: an existing key keeps its position. *)
Fixpoint set {V} (k : view_key) (v : V) (d : t V) : t V :=
  match d with
  | [] => [(k, v)]
  | (k', v') :: d' =>
      if decide (k = k') then (k, v) :: d' else (k', v') :: set k v d'
  end.

(** [not d] *)
Definition is_empty {V} (d : t V) : bool :=
  match d with [] => true | _ => false end.

End Dict.

(** Modelled from the spec: [lea.views.DAGOfViews] (lea/views/dag.py is not
    among the sources), the mapping from view key to view with the pull-based
    scheduling protocol of section 4.2: [prepare] resets the ready and done
    sets, [is_active] holds while some managed key is not done, [get_ready]
    returns the keys whose dependencies are all done and that were not
    returned before, [done] marks a key complete. *)
Record Node : Type := {
  node_key : view_key;
  node_view : View;
  node_deps : list view_key
}.

(** Modelled from the spec: the views of the graph in insertion order,
    each with the keys it depends on in the graph, and the scheduling state. *)
Record Dag : Type := {
  dag_nodes : list Node;
  returned : gset view_key;
  completed : gset view_key
}.

(** Modelled from the spec: a graph of no view. *)
Definition empty_dag : Dag :=
  {| dag_nodes := []; returned := ∅; completed := ∅ |}.

(** Modelled from the spec: [dag.keys()], in insertion order. *)
Definition dag_keys (d : Dag) : list view_key := map node_key (dag_nodes d).

(** Modelled from the spec: [view_key in dag]. *)
Definition dag_contains (k : view_key) (d : Dag) : bool :=
  bool_decide (k ∈ dag_keys d).

(** Modelled from the spec: [dag[view_key]]. *)
Definition dag_getitem (k : view_key) (d : Dag) : result View :=
  match List.find (fun n => bool_decide (node_key n = k)) (dag_nodes d) with
  | Some n => Ok (node_view n)
  | None => Raise KeyError
  end.

(** Modelled from the spec: [dag.prepare()] resets the ready and done
    sets. *)
Definition dag_prepare (d : Dag) : Dag :=
  {| dag_nodes := dag_nodes d; returned := ∅; completed := ∅ |}.

(** Modelled from the spec: [dag.is_active()], true while a managed key is
    not done. *)
Definition dag_is_active (d : Dag) : bool :=
  existsb (fun k => negb (bool_decide (k ∈ completed d))) (dag_keys d).

(** Modelled from the spec: a node is unlocked when it was not returned
    before and all its dependencies are done. *)
Definition unlocked (d : Dag) (n : Node) : bool :=
  negb (bool_decide (node_key n ∈ returned d))
  && forallb (fun dep => bool_decide (dep ∈ completed d)) (node_deps n).

(** Modelled from the spec: [dag.get_ready()] returns the unlocked keys
    and remembers them as returned. *)
Definition dag_get_ready (d : Dag) : list view_key * Dag :=
  let ready :=
    map node_key (filter (fun n => Is_true (unlocked d n)) (dag_nodes d)) in
  (ready,
   {| dag_nodes := dag_nodes d;
      returned := returned d ∪ list_to_set ready;
      completed := completed d |}).

(** Modelled from the spec: [dag.done(key)] marks a key complete, which
    unlocks its dependents. *)
Definition dag_done (k : view_key) (d : Dag) : Dag :=
  {| dag_nodes := dag_nodes d;
     returned := returned d;
     completed := completed d ∪ {[k]} |}.

(** The options of one run. [threads] sizes the worker pool and [show] the
    progress table; the model has the pool's effect in [job_duration] and
    leaves the rendering out. *)
Record Flags : Type := {
  select : list string;
  freeze_unselected : bool;
  print_views : bool;
  dry : bool;
  silent : bool;
  fresh : bool;
  fail_fast : bool
}.

(** What [executor.submit] is given. *)
Inductive Job : Type :=
| DoNothing
| PrettyPrint (view : View)
| Materialize (view : View).

(** The collaborators outside these sources and the surroundings of one
    run. *)
Record World : Type := {
  (** [client.open_views(views_dir)] *)
  open_views : list View;
  (** [client.make_dag] *)
  make_dag : list View -> result Dag;
  (** [dag.select] *)
  dag_select : Dag -> list string -> gset view_key;
  (** [view.rename_table_references] *)
  rename_table_references : View -> option (gmap string string) -> View;
  (** the rows [(schema_name, table_name)] of [duckdb_tables()] *)
  duckdb_tables : list (string * string);
  (** [.cache.pkl]; [None] when the file does not exist *)
  cache_pkl : option (gset view_key);
  (** the exception [client.materialize_view] ends with, if any *)
  materialize_view : View -> option exn;
  (** the exception [pretty_print_view] ends with, if any *)
  pretty_print_view : View -> option exn;
  (** the number of polls a submitted job stays unfinished *)
  job_duration : view_key -> nat
}.

(** [future.exception()]; [_do_nothing] cannot raise. *)
Definition job_exception (world : World) (job : Job) : option exn :=
  match job with
  | DoNothing => None
  | PrettyPrint view => pretty_print_view world view
  | Materialize view => materialize_view world view
  end.

(** *** What the engine does to the outside *)

Inductive status : Type := RUNNING | SUCCESS | ERRORED | SKIPPED.

Inductive message : Type :=
| Selected (n total : nat)
| Removed (table_reference : string)
| AlreadyDone (n : nat)
| Took.

Inductive event : Type :=
| Log (m : message)
| Delete (view_key : view_key) (table_reference : string)
| Submit (view_key : view_key) (job : Job)
| Summary (rows : list (status * Z))
| ErrorDetail (view_key : view_key) (e : exn).

(** *** The state of a run *)

Record Engine : Type := {
  dag : Dag;
  jobs : Dict.t Job;
  execution_order : list view_key;
  jobs_started_at : Dict.t nat;
  jobs_ended_at : Dict.t nat;
  exceptions : Dict.t exn;
  skipped : gset view_key;
  cache_file : option (gset view_key);
  now : nat;
  trace : list event
}.

Definition with_dag (x : Dag) (st : Engine) : Engine :=
  {| dag := x; jobs := jobs st; execution_order := execution_order st;
     jobs_started_at := jobs_started_at st; jobs_ended_at := jobs_ended_at st;
     exceptions := exceptions st; skipped := skipped st;
     cache_file := cache_file st; now := now st; trace := trace st |}.

Definition with_jobs (x : Dict.t Job) (st : Engine) : Engine :=
  {| dag := dag st; jobs := x; execution_order := execution_order st;
     jobs_started_at := jobs_started_at st; jobs_ended_at := jobs_ended_at st;
     exceptions := exceptions st; skipped := skipped st;
     cache_file := cache_file st; now := now st; trace := trace st |}.

Definition with_execution_order (x : list view_key) (st : Engine) : Engine :=
  {| dag := dag st; jobs := jobs st; execution_order := x;
     jobs_started_at := jobs_started_at st; jobs_ended_at := jobs_ended_at st;
     exceptions := exceptions st; skipped := skipped st;
     cache_file := cache_file st; now := now st; trace := trace st |}.

Definition with_jobs_started_at (x : Dict.t nat) (st : Engine) : Engine :=
  {| dag := dag st; jobs := jobs st; execution_order := execution_order st;
     jobs_started_at := x; jobs_ended_at := jobs_ended_at st;
     exceptions := exceptions st; skipped := skipped st;
     cache_file := cache_file st; now := now st; trace := trace st |}.

Definition with_jobs_ended_at (x : Dict.t nat) (st : Engine) : Engine :=
  {| dag := dag st; jobs := jobs st; execution_order := execution_order st;
     jobs_started_at := jobs_started_at st; jobs_ended_at := x;
     exceptions := exceptions st; skipped := skipped st;
     cache_file := cache_file st; now := now st; trace := trace st |}.

Definition with_exceptions (x : Dict.t exn) (st : Engine) : Engine :=
  {| dag := dag st; jobs := jobs st; execution_order := execution_order st;
     jobs_started_at := jobs_started_at st; jobs_ended_at := jobs_ended_at st;
     exceptions := x; skipped := skipped st;
     cache_file := cache_file st; now := now st; trace := trace st |}.

Definition with_skipped (x : gset view_key) (st : Engine) : Engine :=
  {| dag := dag st; jobs := jobs st; execution_order := execution_order st;
     jobs_started_at := jobs_started_at st; jobs_ended_at := jobs_ended_at st;
     exceptions := exceptions st; skipped := x;
     cache_file := cache_file st; now := now st; trace := trace st |}.

Definition with_cache_file (x : option (gset view_key)) (st : Engine) : Engine :=
  {| dag := dag st; jobs := jobs st; execution_order := execution_order st;
     jobs_started_at := jobs_started_at st; jobs_ended_at := jobs_ended_at st;
     exceptions := exceptions st; skipped := skipped st;
     cache_file := x; now := now st; trace := trace st |}.

Definition with_now (x : nat) (st : Engine) : Engine :=
  {| dag := dag st; jobs := jobs st; execution_order := execution_order st;
     jobs_started_at := jobs_started_at st; jobs_ended_at := jobs_ended_at st;
     exceptions := exceptions st; skipped := skipped st;
     cache_file := cache_file st; now := x; trace := trace st |}.

Definition with_trace (x : list event) (st : Engine) : Engine :=
  {| dag := dag st; jobs := jobs st; execution_order := execution_order st;
     jobs_started_at := jobs_started_at st; jobs_ended_at := jobs_ended_at st;
     exceptions := exceptions st; skipped := skipped st;
     cache_file := cache_file st; now := now st; trace := x |}.

(** The state at the first line of [run]. *)
Definition initial (world : World) : Engine :=
  {| dag := empty_dag; jobs := []; execution_order := [];
     jobs_started_at := []; jobs_ended_at := []; exceptions := [];
     skipped := ∅; cache_file := cache_pkl world; now := 0; trace := [] |}.

(** *** Statements: state passing with exceptions

    A statement maps the state to the state it leaves and either a value or
    the exception it raised; what it changed before raising stays
    changed. *)

Definition M (A : Type) : Type := Engine -> result A * Engine.

Definition ret {A} (a : A) : M A := fun st => (Ok a, st).

Definition raise {A} (e : exn) : M A := fun st => (Raise e, st).

Definition lift {A} (r : result A) : M A := fun st => (r, st).

Definition seq {A B} (m : M A) (k : A -> M B) : M B :=
  fun st =>
    match m st with
    | (Ok a, st') => k a st'
    | (Raise e, st') => (Raise e, st')
    end.

Definition gets {A} (f : Engine -> A) : M A := fun st => (Ok (f st), st).

Definition modify (f : Engine -> Engine) : M unit := fun st => (Ok tt, f st).

Notation "x <~ m ;; k" := (seq m (fun x => k))
  (at level 100, m at next level, right associativity,
   format "x  <~  m  ;;  '//' k").
Notation "m >> k" := (seq m (fun _ => k))
  (at level 100, right associativity).

(** [for x in l: body] *)
Fixpoint for_each {X} (l : list X) (body : X -> M unit) : M unit :=
  match l with
  | [] => ret tt
  | x :: l' => body x >> for_each l' body
  end.

Definition emit (e : event) : M unit :=
  modify (fun st => with_trace (trace st ++ [e]) st).

(** *** [_make_table_reference_mapping] *)

(** The names bound at the top level of run.py. *)
Definition module_names : list string :=
  ["annotations"; "concurrent"; "dt"; "functools"; "git"; "pathlib";
   "pickle"; "re"; "time"; "warnings"; "rich"; "lea"; "RUNNING"; "SUCCESS";
   "ERRORED"; "SKIPPED"; "_do_nothing"; "pretty_print_view";
   "_make_table_reference_mapping"; "run"].

(** Reading a name inside a function: its locals, then the module (no
    builtin is called [select]). *)
Definition load_name (locals : list string) (name : string) : result unit :=
  if bool_decide (name ∈ locals ++ module_names) then Ok tt
  else Raise (NameError name).

(** [{ref(k): ref(k, with_username=True) for k in keys}] *)
Fixpoint reference_mapping
    (client : DuckDB) (keys : list view_key) (acc : gmap string string)
  : result (gmap string string) :=
  match keys with
  | [] => Ok acc
  | k :: keys' =>
      logical <- _view_key_to_table_reference client k false ;;
      physical <- _view_key_to_table_reference client k true ;;
      reference_mapping client keys' (<[logical := physical]> acc)
  end.

(** The value is the dictionary returned, or [None] when the body ends
    without a [return]. *)
Definition _make_table_reference_mapping
    (d : Dag) (client : DuckDB) (selected_view_keys : gset view_key)
    (freeze_unselected : bool) : result (option (gmap string string)) :=
  if negb freeze_unselected then
    mapping <- reference_mapping client (dag_keys d) ∅ ;;
    Ok (Some mapping)
  else
    _ <- load_name
           ["dag"; "client"; "selected_view_keys"; "freeze_unselected"]
           "select" ;;
    table_reference_mapping <-
      reference_mapping client (elements selected_view_keys) ∅ ;;
    Ok None.

(** *** [run] *)

Section Run.

Variable client : DuckDB.
Variable flags : Flags.
Variable world : World.

(** [silent = print_views or silent] *)
Definition quiet : bool := print_views flags || silent flags.

(** [console_log = _do_nothing if silent else console.log] *)
Definition console_log (m : message) : M unit :=
  if quiet then ret tt else emit (Log m).

(** The body of the loop that removes orphan tables. *)
Definition remove_orphan (table_reference : string) : M unit :=
  view_key <~ lift (_table_reference_to_view_key client table_reference) ;;
  d <~ gets dag ;;
  if dag_contains view_key d then ret tt
  else
    (if dry flags then ret tt
     else
       dropped <~ lift (delete_view_key client view_key) ;;
       emit (Delete view_key dropped)) >>
    console_log (Removed table_reference).

Definition remove_orphans : M unit :=
  for_each (list_tables client (duckdb_tables world)) remove_orphan.

(** [set() if fresh or not cache_path.exists() else pickle.loads(...)] *)
Definition load_cache (file : option (gset view_key)) : gset view_key :=
  if fresh flags then ∅ else default ∅ file.

Section Loop.

Variable selected_view_keys : gset view_key.
Variable table_reference_mapping : option (gmap string string).
Variable cache : gset view_key.

(** [dag.done(view_key)] *)
Definition mark_done (view_key : view_key) : M unit :=
  modify (fun st => with_dag (dag_done view_key (dag st)) st).

(** [any(dep_key in skipped or dep_key in exceptions
         for dep_key in map(client._table_reference_to_view_key, deps))] *)
Fixpoint any_dependency_failed
    (skipped_ : gset view_key) (exceptions_ : Dict.t exn)
    (deps : list string) : result bool :=
  match deps with
  | [] => Ok false
  | dep :: deps' =>
      dep_key <- _table_reference_to_view_key client dep ;;
      if bool_decide (dep_key ∈ skipped_) || Dict.mem dep_key exceptions_
      then Ok true
      else any_dependency_failed skipped_ exceptions_ deps'
  end.

(** The job chosen for a view that runs. *)
Definition choose_job (view_key : view_key) (view : View) : Job :=
  if dry flags || bool_decide (view_key ∈ cache) then DoNothing
  else if print_views flags then
    PrettyPrint (rename_table_references world view table_reference_mapping)
  else
    Materialize (rename_table_references world view table_reference_mapping).

(** The body of [for view_key in dag.get_ready()]. *)
Definition handle_ready (view_key : view_key) : M unit :=
  if negb (bool_decide (view_key ∈ selected_view_keys)) then
    mark_done view_key
  else
    modify (fun st =>
      with_execution_order (execution_order st ++ [view_key]) st) >>
    d <~ gets dag ;;
    view <~ lift (dag_getitem view_key d) ;;
    deps <~ lift (dependencies view) ;;
    st <~ gets id ;;
    failed <~ lift (any_dependency_failed (skipped st) (exceptions st) deps) ;;
    if failed then
      modify (fun st => with_skipped (skipped st ∪ {[view_key]}) st) >>
      mark_done view_key
    else
      let job := choose_job view_key view in
      modify (fun st => with_jobs (Dict.set view_key job (jobs st)) st) >>
      emit (Submit view_key job) >>
      modify (fun st =>
        with_jobs_started_at
          (Dict.set view_key (now st) (jobs_started_at st)) st).

(** [jobs[view_key].done()] at the time of the state. *)
Definition future_done (st : Engine) (view_key : view_key) : bool :=
  match Dict.get view_key (jobs_started_at st) with
  | Some started => started + job_duration world view_key <=? now st
  | None => false
  end.

(** [jobs[view_key].exception()] *)
Definition future_exception (st : Engine) (view_key : view_key)
  : option exn :=
  match Dict.get view_key (jobs st) with
  | Some job => job_exception world job
  | None => None
  end.

(** The body of [for view_key in jobs_started_at]. *)
Definition poll_job (view_key : view_key) : M unit :=
  st <~ gets id ;;
  if negb (Dict.mem view_key (jobs_ended_at st)) && future_done st view_key
  then
    mark_done view_key >>
    modify (fun st =>
      with_jobs_ended_at (Dict.set view_key (now st) (jobs_ended_at st)) st) >>
    match future_exception st view_key with
    | Some exception =>
        (raise exception : M unit) >>
        modify (fun st =>
          with_exceptions (Dict.set view_key exception (exceptions st)) st)
    | None => ret tt
    end
  else ret tt.

(** [dag.get_ready()] *)
Definition get_ready : M (list view_key) :=
  fun st =>
    let (ready, d) := dag_get_ready (dag st) in
    (Ok ready, with_dag d st).

(** One turn of [while dag.is_active()]; time moves on at its end. *)
Definition cycle : M unit :=
  ready <~ get_ready ;;
  for_each ready handle_ready >>
  started <~ gets jobs_started_at ;;
  for_each (Dict.keys started) poll_job >>
  modify (fun st => with_now (S (now st)) st).

(** The loop, for at most [fuel] turns; [false] when they run out. *)
Fixpoint loop (fuel : nat) : M bool :=
  match fuel with
  | O => ret false
  | S fuel' =>
      d <~ gets dag ;;
      if dag_is_active d then cycle >> loop fuel' else ret true
  end.

(** The views of this run that are neither errored nor skipped. *)
Definition built (st : Engine) : list view_key :=
  filter
    (fun k => ¬ Is_true (Dict.mem k (exceptions st)) ∧ k ∉ skipped st)
    (execution_order st).

(** The set written when the loop has ended. *)
Definition new_cache (st : Engine) : gset view_key :=
  let all_done :=
    Dict.is_empty (exceptions st) && bool_decide (skipped st = ∅) in
  if all_done then ∅ else cache ∪ list_to_set (built st).

(** [write_bytes] for a non-empty set, [unlink] otherwise. *)
Definition save_cache : M unit :=
  modify (fun st =>
    let c := new_cache st in
    with_cache_file (if bool_decide (c = ∅) then None else Some c) st).

Definition summary_rows (st : Engine) : list (status * Z) :=
  let succeeded :=
    (Z.of_nat (length (jobs_ended_at st))
     - Z.of_nat (length (exceptions st)))%Z in
  let errored := Z.of_nat (length (exceptions st)) in
  let skipped_ := Z.of_nat (size (skipped st)) in
  (if (succeeded =? 0)%Z then [] else [(SUCCESS, succeeded)])
  ++ (if (errored =? 0)%Z then [] else [(ERRORED, errored)])
  ++ (if (skipped_ =? 0)%Z then [] else [(SKIPPED, skipped_)]).

(** From [# Summary statistics] to the end of [run]. *)
Definition summary : M unit :=
  if quiet then ret tt
  else
    emit (Log Took) >>
    st <~ gets id ;;
    emit (Summary (summary_rows st)) >>
    if negb (Dict.is_empty (exceptions st)) then
      for_each (exceptions st) (fun item => emit (ErrorDetail item.1 item.2)) >>
      if fail_fast flags then raise (Exception "Some views failed to build")
      else ret tt
    else ret tt.

(** What follows the loop. *)
Definition finish : M unit := save_cache >> summary.

End Loop.

(** [[view for view in views if view.schema not in {"tests", "funcs"}]] *)
Definition managed_views : list View :=
  filter (fun view => schema view ∉ ["tests"; "funcs"]) (open_views world).

(** [run], the loop bounded by [fuel]; [Ok false] when the turns run out
    before the loop ends. *)
Definition run (fuel : nat) : M bool :=
  let views := managed_views in
  d <~ lift (make_dag world views) ;;
  modify (with_dag d) >>
  let selected_view_keys :=
    match select flags with
    | [] => list_to_set (dag_keys d)
    | _ => dag_select world d (select flags)
    end in
  console_log (Selected (size selected_view_keys) (length views)) >>
  table_reference_mapping <~
    lift (_make_table_reference_mapping d client selected_view_keys
            (freeze_unselected flags)) ;;
  remove_orphans >>
  file <~ gets cache_file ;;
  let cache := load_cache file in
  console_log (AlreadyDone (size cache)) >>
  modify (fun st => with_dag (dag_prepare (dag st)) st) >>
  ended <~ loop selected_view_keys table_reference_mapping cache fuel ;;
  if ended then
    finish cache >> ret true
  else ret false.

End Run.

(** ** Derived notions used in the statements *)

(** A view key sent to its table reference and back, with no username
    scope. *)
Definition roundtrip (client : DuckDB) (key : view_key) : result view_key :=
  table_reference <- _view_key_to_table_reference client key false ;;
  _table_reference_to_view_key client table_reference.

(** A component with neither a dot nor the separator in it. *)
Definition plain (c : string) : Prop :=
  Str.contains "." c = false ∧ Str.contains _SEP c = false.

(** The physical reference that a logical reference is mapped to: scoped
    by the file stem when the client has a user. *)
Definition scoped (client : DuckDB) (table_reference : string) : string :=
  if username_set client then path_stem client +:+ "." +:+ table_reference
  else table_reference.

(** The keys of the [Delete] events of a trace, in order. *)
Definition deletions (tr : list event) : list view_key :=
  omap (fun e => match e with Delete k _ => Some k | _ => None end) tr.

(** The keys of the [Submit] events of a trace, in order. *)
Definition submissions (tr : list event) : list view_key :=
  omap (fun e => match e with Submit k _ => Some k | _ => None end) tr.


(** The orphans among enumerated table references: each reference whose
    derived view key is not in the graph, with that key. *)
Definition orphans (client : DuckDB) (d : Dag) (tables : list string)
  : list (string * view_key) :=
  omap
    (fun t =>
       match _table_reference_to_view_key client t with
       | Ok k => if dag_contains k d then None else Some (t, k)
       | Raise _ => None
       end)
    tables.


(** What one pass over an enumerated table reference emits in a graph. *)
Definition cleanup_events
    (client : DuckDB) (flags : Flags) (d : Dag) (table_reference : string)
  : list event :=
  match _table_reference_to_view_key client table_reference with
  | Ok k =>
      if dag_contains k d then []
      else
        (if dry flags then []
         else match delete_view_key client k with
              | Ok dropped => [Delete k dropped]
              | Raise _ => []
              end)
        ++ (if quiet flags then [] else [Log (Removed table_reference)])
  | Raise _ => []
  end.

(** The events other than [Delete]. *)
Definition not_delete (e : event) : Prop :=
  match e with Delete _ _ => False | _ => True end.

(** The events other than [Submit]. *)
Definition not_submit (e : event) : Prop :=
  match e with Submit _ _ => False | _ => True end.

(** A statement adds to the trace only events that satisfy [P]. *)
Definition emits_only (P : event -> Prop) {A} (m : M A) : Prop :=
  ∀ st, ∃ new, trace ((m st).2) = trace st ++ new ∧ Forall P new.

(** What the cache file holds, an absent file being the empty set. *)
Definition persisted (st : Engine) : gset view_key :=
  default ∅ (cache_file st).

(** ** Sample clients, scripts, graphs and runs *)

(** A client on the file [warehouse.db], with no user. *)
Definition warehouse : DuckDB :=
  {| path_stem := "warehouse"; username := None |}.

(** A script whose only statement is
    [pd.read_gbq(query="SELECT * FROM core.orders")]. *)
Definition read_gbq_by_keyword : PythonView.t :=
  {| PythonView.key := ["core"; "report"];
     PythonView.tree :=
       PythonView.Module
         [PythonView.Expr
            (PythonView.Call
               (PythonView.Attribute (PythonView.Name "pd") "read_gbq")
               []
               [PythonView.Keyword (Some "query")
                  (PythonView.Constant
                     (PythonView.CStr "SELECT * FROM core.orders"))])] |}.

(** A script whose only statement is [session.query_all()]. *)
Definition query_without_argument : PythonView.t :=
  {| PythonView.key := ["core"; "report"];
     PythonView.tree :=
       PythonView.Module
         [PythonView.Expr
            (PythonView.Call
               (PythonView.Attribute (PythonView.Name "session") "query_all")
               [] [])] |}.

(** A script whose only statement is [load(name)]: a call of a plain
    name. *)
Definition call_of_a_name : PythonView.t :=
  {| PythonView.key := ["core"; "report"];
     PythonView.tree :=
       PythonView.Module
         [PythonView.Expr
            (PythonView.Call (PythonView.Name "load")
               [PythonView.Name "name"] [])] |}.

Module Sample.

Definition plain_view (k : view_key) (deps : list string) : View :=
  {| key := k; schema := hd EmptyString k; dependencies := Ok deps |}.

Definition a : view_key := ["core"; "a"].
Definition b : view_key := ["core"; "b"].
Definition c : view_key := ["core"; "c"].

Definition node (k : view_key) (deps : list string) (dep_keys : list view_key)
  : Node :=
  {| node_key := k; node_view := plain_view k deps; node_deps := dep_keys |}.

(** [a], then [b] reading [a], then [c] reading [b]. *)
Definition line : Dag :=
  {| dag_nodes :=
       [node a [] []; node b ["core.a"] [a]; node c ["core.b"] [b]];
     returned := ∅; completed := ∅ |}.

(** [a] and [b], independent of each other. *)
Definition pair : Dag :=
  {| dag_nodes := [node a [] []; node b [] []];
     returned := ∅; completed := ∅ |}.

Definition flags : Flags :=
  {| select := []; freeze_unselected := false; print_views := false;
     dry := false; silent := false; fresh := false; fail_fast := false |}.

Definition fail_fast_only : Flags :=
  {| select := []; freeze_unselected := false; print_views := false;
     dry := false; silent := false; fresh := false; fail_fast := true |}.

(** A run over [d] in which the views in [failing] fail to materialize,
    a job takes [duration k] polls, the store holds [tables] and the
    selector answers [chosen]. *)
Definition world
    (d : Dag) (failing : list view_key) (duration : view_key -> nat)
    (tables : list (string * string)) (chosen : gset view_key) : World :=
  {| open_views := map node_view (dag_nodes d);
     make_dag := fun _ => Ok d;
     dag_select := fun _ _ => chosen;
     rename_table_references := fun view _ => view;
     duckdb_tables := tables;
     cache_pkl := Some {[ ["core"; "old"] ]};
     materialize_view :=
       fun view =>
         if bool_decide (key view ∈ failing) then Some (JobError "boom")
         else None;
     pretty_print_view := fun _ => None;
     job_duration := duration |}.

(** Every view of [line] builds, each job taking one poll. *)
Definition all_build : World := world line [] (fun _ => 1) [] ∅.

(** [a] fails at once while [b] is still running. *)
Definition a_fails_b_runs : World :=
  world pair [a] (fun k => if bool_decide (k = b) then 5 else 0) [] ∅.

(** The store holds [core.a] (in the graph) and two tables of no view. *)
Definition with_orphans : World :=
  world line [] (fun _ => 0)
    [("core", "a"); ("core", "gone"); ("staging", "old__orders")] ∅.

(** The state of a run over [line] at the head of the loop, had the
    failure of [a] been recorded: [a] was submitted, ended and is in
    [exceptions]. *)
Definition a_errored : Engine :=
  {| dag := {| dag_nodes := dag_nodes line;
               returned := {[a]}; completed := {[a]} |};
     jobs := [(a, Materialize (plain_view a []))];
     execution_order := [a];
     jobs_started_at := [(a, 0)];
     jobs_ended_at := [(a, 0)];
     exceptions := [(a, JobError "boom")];
     skipped := ∅;
     cache_file := None;
     now := 1;
     trace := [Submit a (Materialize (plain_view a []))] |}.

(** Every view of [line] selected. *)
Definition all : gset view_key := {[a; b; c]}.

Definition line_world : World := world line [a] (fun _ => 0) [] all.

End Sample.

(** ** Further notions: the client *)

(** A view key sent to its reference scoped by the user and back. *)
Definition scoped_roundtrip (client : DuckDB) (key : view_key)
  : result view_key :=
  table_reference <- _view_key_to_table_reference client key true ;;
  _table_reference_to_view_key client table_reference.

(** A name whose components are cut apart again where they were joined:
    none holds the separator and none but the last ends in an underscore. *)
Definition separable (name : list string) : Prop :=
  Forall (fun c => Str.contains _SEP c = false) name
  ∧ Forall (fun c => Str.endswith "_" c = false) (removelast name).

(** A client whose file belongs to the user [max]. *)
Definition warehouse_max : DuckDB :=
  {| path_stem := "warehouse_max"; username := Some "max" |}.

(** ** Further notions: script-defined views *)

(** [m] is a node of the tree of [n]: [n] itself or a node of the tree of
    one of its children. *)
Inductive within : PythonView.node -> PythonView.node -> Prop :=
| within_self n : within n n
| within_child m c n :
    c ∈ PythonView.iter_child_nodes n → within m c → within m n.

(** The function of a call that the scan looks into: [pd.read_gbq], or an
    attribute whose name starts with [query]. *)
Definition looked_into (func : PythonView.node) : Prop :=
  func = PythonView.Attribute (PythonView.Name "pd") "read_gbq"
  ∨ ∃ target attr,
      func = PythonView.Attribute target attr
      ∧ Str.startswith "query" attr = true.

(** [n] is a call that the scan looks into and [q] is the [value] of its
    first positional argument. *)
Definition recognised (n : PythonView.node) (q : PythonView.obj) : Prop :=
  ∃ func a args keywords,
    n = PythonView.Call func (a :: args) keywords
    ∧ looked_into func
    ∧ PythonView.get_value a = Ok q.

(** A script that reads two tables, one through [pd.read_gbq] and one
    through a [query] method, inside an assignment and a call. *)
Definition two_reads : PythonView.t :=
  {| PythonView.key := ["core"; "report"];
     PythonView.tree :=
       PythonView.Module
         [PythonView.Assign [PythonView.Name "orders"]
            (PythonView.Call
               (PythonView.Attribute (PythonView.Name "pd") "read_gbq")
               [PythonView.Constant (PythonView.CStr "core.orders")] []);
          PythonView.Expr
            (PythonView.Call (PythonView.Name "print")
               [PythonView.Call
                  (PythonView.Attribute (PythonView.Name "client") "query")
                  [PythonView.Constant (PythonView.CStr "core.users")] []]
               [])] |}.

(** A stand-in for [SQLView.parse_dependencies] on the sample: a string
    literal is taken for one table reference, anything else is refused. *)
Definition literal_reference (q : PythonView.obj) : result (list string) :=
  match q with
  | PythonView.OConst (PythonView.CStr s) => Ok [s]
  | _ => Raise (JobError "not a query")
  end.

(** ** Further notions: the run *)

(** The selection of a run over the graph [d]:
    [dag.select( *select) if select else dag.keys()]. *)
Definition run_selection (flags : Flags) (world : World) (d : Dag)
  : gset view_key :=
  match select flags with
  | [] => list_to_set (dag_keys d)
  | _ => dag_select world d (select flags)
  end.

(** A job is of the kind that the options and the loaded cache ask for. *)
Definition job_fits (flags : Flags) (cache : gset view_key) (k : view_key)
    (job : Job) : Prop :=
  match job with
  | DoNothing => dry flags = true ∨ k ∈ cache
  | PrettyPrint _ =>
      dry flags = false ∧ (k ∉ cache) ∧ print_views flags = true
  | Materialize _ =>
      dry flags = false ∧ (k ∉ cache) ∧ print_views flags = false
  end.

(** An event is one that a run with these options, this selection and
    this loaded cache over the graph [d] may emit. *)
Definition event_fits (client : DuckDB) (flags : Flags)
    (selected : gset view_key) (cache : gset view_key) (d : Dag) (e : event)
  : Prop :=
  match e with
  | Log _ | Summary _ | ErrorDetail _ _ => quiet flags = false
  | Delete k dropped =>
      dry flags = false ∧ (k ∉ dag_keys d)
      ∧ delete_view_key client k = Ok dropped
  | Submit k job => k ∈ selected ∧ job_fits flags cache k job
  end.

(** The events that reach the console. *)
Definition console_event (e : event) : Prop :=
  match e with
  | Log _ | Summary _ | ErrorDetail _ _ => True
  | _ => False
  end.

(** A statement keeps a property of the state, however it ends. *)
Definition keeps (I : Engine -> Prop) {A} (m : M A) : Prop :=
  ∀ st, I st → I ((m st).2).

(** No error and no skip is on record. *)
Definition clean (st : Engine) : Prop :=
  exceptions st = [] ∧ skipped st = ∅.

(** The books of the engine agree: a job is stored for the views that were
    submitted and for no other, these are the views with a start time, only
    they have an end time, and jobs and skips are for handled views. *)
Definition books_agree (st : Engine) : Prop :=
  Dict.keys (jobs st) = Dict.keys (jobs_started_at st)
  ∧ (∀ k, k ∈ Dict.keys (jobs st) ↔ k ∈ submissions (trace st))
  ∧ (∀ k, k ∈ Dict.keys (jobs_ended_at st) → k ∈ Dict.keys (jobs_started_at st))
  ∧ (∀ k, k ∈ Dict.keys (jobs st) → k ∈ execution_order st)
  ∧ (∀ k, k ∈ skipped st → k ∈ execution_order st).

(** ** lea/clients/duckdb.py: the path of the client

    [__init__] keeps a MotherDuck path as a string and turns any other
    path into a [pathlib.Path]; the connection it opens is left out. *)

Module ClientPath.

Section Pathlib.

(** [pathlib.Path], with the operations that [__init__] uses. *)
Variable Path : Type.
Variable of_str : string -> Path.
Variable parent : Path -> Path.
Variable stem : Path -> string.
Variable suffix : Path -> string.
Variable joinpath : Path -> string -> Path.
Variable absolute : Path -> Path.

(** The value of [self.path]. *)
Inductive path_value : Type :=
| PathStr (s : string)
| PathObject (p : Path).

Record t : Type := {
  path : path_value;
  user : option string
}.

Definition __init__ (path : string) (username : option string) : t :=
  {| path :=
       if Str.startswith "md:" path then
         PathStr
           (match username with
            | Some u => path +:+ "_" +:+ u
            | None => path
            end)
       else
         let p := of_str path in
         PathObject
           (match username with
            | Some u =>
                absolute
                  (joinpath (parent p) (stem p +:+ "_" +:+ u +:+ suffix p))
            | None => p
            end);
     user := username |}.

(** [self.path.startswith("md:")]: a [pathlib.Path] has no
    [startswith]. *)
Definition is_motherduck (self : t) : result bool :=
  match path self with
  | PathStr s => Ok (Str.startswith "md:" s)
  | PathObject _ => Raise AttributeError
  end.

(** [self.path.stem]: a string has no [stem]. *)
Definition stem_of (self : t) : result string :=
  match path self with
  | PathObject p => Ok (stem p)
  | PathStr _ => Raise AttributeError
  end.

(** Truth value of [self.username] ([None] and [""] are falsy). *)
Definition user_set (self : t) : bool :=
  match user self with
  | None => false
  | Some u => negb (String.eqb u "")
  end.

(** [_view_key_to_table_reference] on the client as [__init__] leaves it:
    the stem of the path is read only for a user-scoped reference. *)
Definition _view_key_to_table_reference
    (self : t) (key : view_key) (with_username : bool) : result string :=
  match key with
  | [] => Raise ValueError
  | schema :: leftover =>
      let table_reference := schema +:+ "." +:+ Str.join _SEP leftover in
      if with_username && user_set self then
        stem_ <- stem_of self ;;
        Ok (stem_ +:+ "." +:+ table_reference)
      else Ok table_reference
  end.

(** [_table_reference_to_view_key] on the client as [__init__] leaves it:
    the stem of the path is read once the reference is cut in two. *)
Definition _table_reference_to_view_key
    (self : t) (table_reference : string) : result view_key :=
  parts <- Str.split "." (Some 1) table_reference ;;
  match parts with
  | [database; leftover] =>
      stem_ <- stem_of self ;;
      if String.eqb database stem_ then
        parts' <- Str.split "." (Some 1) leftover ;;
        match parts' with
        | [schema; leftover'] =>
            name <- Str.split _SEP None leftover' ;;
            Ok (schema :: name)
        | _ => Raise ValueError
        end
      else
        name <- Str.split _SEP None leftover ;;
        Ok (database :: name)
  | _ => Raise ValueError
  end.

(** [{ref(k): ref(k, with_username=True) for k in keys}] *)
Fixpoint reference_mapping
    (self : t) (keys : list view_key) (acc : gmap string string)
  : result (gmap string string) :=
  match keys with
  | [] => Ok acc
  | k :: keys' =>
      logical <- _view_key_to_table_reference self k false ;;
      physical <- _view_key_to_table_reference self k true ;;
      reference_mapping self keys' (<[logical := physical]> acc)
  end.

(** [_make_table_reference_mapping] of run.py, given such a client. *)
Definition _make_table_reference_mapping
    (d : Dag) (self : t) (selected_view_keys : gset view_key)
    (freeze_unselected : bool) : result (option (gmap string string)) :=
  if negb freeze_unselected then
    mapping <- reference_mapping self (dag_keys d) ∅ ;;
    Ok (Some mapping)
  else
    _ <- load_name
           ["dag"; "client"; "selected_view_keys"; "freeze_unselected"]
           "select" ;;
    table_reference_mapping <-
      reference_mapping self (elements selected_view_keys) ∅ ;;
    Ok None.

(** The client on a database file, as the record that the engine is
    given; a client on a path kept as a string is none. *)
Definition on_file (self : t) : option DuckDB :=
  match path self with
  | PathObject p => Some {| path_stem := stem p; username := user self |}
  | PathStr _ => None
  end.

End Pathlib.

End ClientPath.

(** ** lea/views/python.py: the dependencies of a script file

    [dependencies] reads the file ([source_code]) and parses it
    ([ast.parse]) before it walks the tree; either may raise. *)
Definition dependencies_of_file
    (parse_dependencies : PythonView.obj -> result (list string))
    (read_text : result string)
    (ast_parse : string -> result PythonView.node)
    (key : view_key) : result (gset string) :=
  source_code <- read_text ;;
  tree <- ast_parse source_code ;;
  PythonView.dependencies parse_dependencies
    {| PythonView.key := key; PythonView.tree := tree |}.

(** ** lea/app/run.py: what the cleanup owes the store *)

(** The [Delete] events of a trace, in order: the key and the table
    dropped. *)
Definition drops (tr : list event) : list (view_key * string) :=
  omap (fun e => match e with Delete k t => Some (k, t) | _ => None end) tr.

(** What the cleanup owes a row [(schema_name, table_name)] of the store in
    the graph [d]: nothing when the key read from the reference of the row
    is a view of the graph; else one statement that drops the table the key
    names, unless the run is dry, and one report, unless the run is silent
    or print-only. *)
Definition orphan_events
    (client : DuckDB) (flags : Flags) (d : Dag) (row : string * string)
  : list event :=
  let table_reference :=
    path_stem client +:+ "." +:+ row.1 +:+ "." +:+ row.2 in
  match _table_reference_to_view_key client table_reference with
  | Ok (schema :: name) =>
      if bool_decide (schema :: name ∈ dag_keys d) then []
      else
        (if dry flags then []
         else [Delete (schema :: name)
                 (schema +:+ "." +:+ Str.join _SEP name)])
        ++ (if print_views flags || silent flags then []
            else [Log (Removed table_reference)])
  | _ => []
  end.

(** The options with [fail_fast] set to [b]. *)
Definition with_fail_fast (b : bool) (flags : Flags) : Flags :=
  {| select := select flags; freeze_unselected := freeze_unselected flags;
     print_views := print_views flags; dry := dry flags;
     silent := silent flags; fresh := fresh flags; fail_fast := b |}.

(** A statement keeps a property of the state as long as it returns. *)
Definition keeps_returning (I : Engine -> Prop) {A} (m : M A) : Prop :=
  ∀ st, I st →
        match m st with
        | (Ok _, st') => I st'
        | (Raise _, _) => True
        end.

(** Every view that was handled has a job, and no failure is on record. *)
Definition all_dispatched (st : Engine) : Prop :=
  clean st
  ∧ Forall (fun k => k ∈ Dict.keys (jobs st)) (execution_order st).

(** ** lea/app/run.py: the progress table *)

(** [l[-n:]] *)
Definition last_items {X} (n : Z) (l : list X) : list X :=
  if (0 <? n)%Z then drop (length l - Z.to_nat n) l
  else drop (Z.to_nat (- n)) l.

(** [enumerate(l, start=i)] *)
Fixpoint enumerate {X} (i : nat) (l : list X) : list (nat * X) :=
  match l with
  | [] => []
  | x :: l' => (i, x) :: enumerate (S i) l'
  end.

(** A row of the table: the number, the view, the status and the duration
    that is shown, in ticks of the clock; [None] is the empty cell. *)
Record ProgressRow : Type := {
  row_index : nat;
  row_view : View;
  row_status : status;
  row_duration : option Z
}.

Definition progress_status (st : Engine) (view_key : view_key) : status :=
  if Dict.mem view_key (exceptions st) then ERRORED
  else if bool_decide (view_key ∈ skipped st) then SKIPPED
  else if Dict.mem view_key (jobs_ended_at st) then SUCCESS
  else RUNNING.

(** [jobs_ended_at.get(view_key, now) - jobs_started_at[view_key]] for a
    started view; a zero duration is falsy and shows as the empty cell. *)
Definition progress_duration (st : Engine) (view_key : view_key)
  : option Z :=
  match Dict.get view_key (jobs_started_at st) with
  | Some started =>
      let ended := default (now st) (Dict.get view_key (jobs_ended_at st)) in
      let duration := (Z.of_nat ended - Z.of_nat started)%Z in
      if (duration =? 0)%Z then None else Some duration
  | None => None
  end.

(** The body of the loop of [display_progress]. *)
Definition progress_row (st : Engine) (item : nat * view_key)
  : result ProgressRow :=
  let status := progress_status st item.2 in
  let duration := progress_duration st item.2 in
  view <- dag_getitem item.2 (dag st) ;;
  Ok {| row_index := item.1; row_view := view; row_status := status;
        row_duration := duration |}.

Fixpoint progress_rows (st : Engine) (items : list (nat * view_key))
  : result (list ProgressRow) :=
  match items with
  | [] => Ok []
  | item :: items' =>
      row <- progress_row st item ;;
      rows <- progress_rows st items' ;;
      Ok (row :: rows)
  end.

(** The views of the execution order that were not in the cache. *)
Definition not_done (cache : gset view_key) (st : Engine) : list view_key :=
  filter (fun view_key => view_key ∉ cache) (execution_order st).

(** [display_progress]: [None], or the rows of the table. *)
Definition display_progress
    (flags : Flags) (show : Z) (cache : gset view_key) (st : Engine)
  : result (option (list ProgressRow)) :=
  if quiet flags then Ok None
  else
    rows <- progress_rows st
              (last_items show (enumerate 1 (not_done cache st))) ;;
    Ok (Some rows).

Module MoreSamples.

(** A view that reads a table named without a schema. *)
Definition undotted : Dag :=
  {| dag_nodes := [Sample.node Sample.a ["orders"] []];
     returned := ∅; completed := ∅ |}.

Definition at_undotted : Engine := with_dag undotted (initial Sample.all_build).

(** The views of [Sample.line] over a store in which [a] builds and [b]
    fails to build, each job done at the first poll. *)
Definition b_fails : World :=
  Sample.world Sample.line [Sample.b] (fun _ => 0) [] ∅.

Definition dry_run : Flags :=
  {| select := []; freeze_unselected := false; print_views := false;
     dry := true; silent := false; fresh := false; fail_fast := false |}.

Definition silent_run : Flags :=
  {| select := []; freeze_unselected := false; print_views := false;
     dry := false; silent := true; fresh := false; fail_fast := false |}.

Definition frozen_run : Flags :=
  {| select := ["core.c"]; freeze_unselected := true; print_views := false;
     dry := false; silent := false; fresh := false; fail_fast := false |}.

End MoreSamples.

(** * Properties *)

(** ** Strings *)

Module StrFacts.
Import Str.

#[local] Arguments Ascii.eqb : simpl never.

Lemma append_cons a s t : String a s +:+ t = String a (s +:+ t).
Proof. reflexivity. Qed.

Lemma append_empty t : EmptyString +:+ t = t.
Proof. reflexivity. Qed.

Lemma length_append s t :
  String.length (s +:+ t) = String.length s + String.length t.
Proof.
  induction s as [|a s IH]; [reflexivity|].
  rewrite append_cons. simpl. by rewrite IH.
Qed.

Lemma contains_cons sub a s :
  contains sub (String a s) = false → contains sub s = false.
Proof.
  unfold contains. simpl.
  destruct (startswith sub (String a s)); [done|].
  destruct (find_sep sub s) as [[? ?]|]; done.
Qed.

(** A component without dots is cut off at the dot that follows it. *)
Lemma find_sep_dot c rest :
  contains "." c = false →
  find_sep "." (c +:+ "." +:+ rest) = Some (c, rest).
Proof.
  induction c as [|a c IH]; intros Hc; [reflexivity|].
  rewrite append_cons.
  pose proof (contains_cons _ _ _ Hc) as Hc'.
  unfold contains in Hc. simpl in Hc. simpl.
  destruct (Ascii.eqb "." a); [done|].
  by rewrite (IH Hc').
Qed.

Lemma endswith_cons suf a b s :
  endswith suf (String a (String b s)) = false →
  endswith suf (String b s) = false.
Proof.
  intros H. simpl in H. apply orb_false_iff in H as [_ H]. exact H.
Qed.

(** A component without the separator that does not end in an underscore
    is cut off at the separator that follows it. *)
Lemma find_sep_SEP c rest :
  contains _SEP c = false → endswith "_" c = false →
  find_sep _SEP (c +:+ _SEP +:+ rest) = Some (c, rest).
Proof.
  induction c as [|a c IH]; intros Hc He; [reflexivity|].
  rewrite append_cons.
  pose proof (contains_cons _ _ _ Hc) as Hc'.
  assert (endswith "_" c = false) as He'.
  { destruct c as [|b c]; [reflexivity|]. by eapply endswith_cons. }
  specialize (IH Hc' He').
  unfold contains, _SEP in Hc. simpl in Hc.
  unfold _SEP in *. simpl.
  destruct (Ascii.eqb_spec "_" a) as [<-|Hne].
  - destruct c as [|b c]; [by vm_compute in He|].
    rewrite append_cons. simpl.
    destruct (Ascii.eqb_spec "_" b) as [<-|Hb]; [done|].
    rewrite append_cons in IH. simpl in IH.
    destruct (Ascii.eqb_spec "_" b); [done|].
    destruct (find_sep "__" (c +:+ "__" +:+ rest)) as [[? ?]|]; [|done].
    by simplify_eq.
  - by rewrite IH.
Qed.

Lemma find_sep_none sep c :
  contains sep c = false → find_sep sep c = None.
Proof. unfold contains. by destruct (find_sep sep c). Qed.

Lemma length_join sep l :
  length l ≤ S (String.length (join (String "_" sep) l)).
Proof.
  induction l as [|x [|y l] IH]; simpl; [lia..|].
  rewrite !length_append. simpl in *. lia.
Qed.

(** Splitting a joined name gives the name back when the cuts fall on
    the seams. *)
Lemma split_upto_join name n :
  name ≠ [] →
  Forall (fun c => contains _SEP c = false) name →
  Forall (fun c => endswith "_" c = false) (removelast name) →
  length name ≤ S n →
  split_upto n _SEP (join _SEP name) = name.
Proof.
  revert n. induction name as [|c [|c' name] IH]; intros n Hne Hc He Hn; [done| |].
  - simpl. destruct n; [done|]. simpl.
    apply Forall_inv in Hc. by rewrite (find_sep_none _ _ Hc).
  - destruct n as [|n]; [simpl in Hn; lia|].
    change (join _SEP (c :: c' :: name))
      with (c +:+ _SEP +:+ join _SEP (c' :: name)).
    simpl split_upto.
    rewrite find_sep_SEP.
    + f_equal. apply IH; [done| | |simpl in *; lia].
      * by apply Forall_inv_tail in Hc.
      * change (removelast (c :: c' :: name))
          with (c :: removelast (c' :: name)) in He.
        by apply Forall_inv_tail in He.
    + by apply Forall_inv in Hc.
    + change (removelast (c :: c' :: name))
        with (c :: removelast (c' :: name)) in He.
      by apply Forall_inv in He.
Qed.

End StrFacts.

Module SplitFacts.
Import Str.

#[local] Arguments Ascii.eqb : simpl never.

Lemma startswith_append sep rest : startswith sep (sep +:+ rest) = true.
Proof.
  induction sep as [|a sep IH]; [reflexivity|].
  rewrite StrFacts.append_cons. simpl. by rewrite Ascii.eqb_refl.
Qed.

Lemma startswith_drop sep s :
  startswith sep s = true → s = sep +:+ drop (String.length sep) s.
Proof.
  revert s. induction sep as [|a sep IH]; intros s H; [reflexivity|].
  destruct s as [|b s]; [discriminate H|]. simpl in H.
  destruct (Ascii.eqb_spec a b) as [->|]; [|discriminate H].
  rewrite StrFacts.append_cons. simpl. f_equal. by apply IH.
Qed.

Lemma find_sep_at_head sep s :
  startswith sep s = true →
  find_sep sep s = Some (EmptyString, drop (String.length sep) s).
Proof. intros H. destruct s; simpl; by rewrite H. Qed.

(** A string that holds the separator is cut somewhere. *)
Lemma find_sep_some sep a b :
  ∃ a' b', find_sep sep (a +:+ sep +:+ b) = Some (a', b').
Proof.
  induction a as [|c a [a' [b' IH]]].
  - rewrite StrFacts.append_empty.
    rewrite (find_sep_at_head _ _ (startswith_append sep b)). eauto.
  - rewrite StrFacts.append_cons. simpl. rewrite IH.
    destruct (startswith sep (String c (a +:+ sep +:+ b))); eauto.
Qed.

(** The cut gives back the string around the separator. *)
Lemma find_sep_spec sep s a b :
  find_sep sep s = Some (a, b) → s = a +:+ sep +:+ b.
Proof.
  revert a b. induction s as [|c s IH]; intros a b H.
  - simpl in H. destruct (startswith sep "") eqn:Hs; [|discriminate H].
    simplify_eq. by apply startswith_drop.
  - simpl in H. destruct (startswith sep (String c s)) eqn:Hs.
    + simplify_eq. by apply startswith_drop.
    + destruct (find_sep sep s) as [[a' b']|]; [|discriminate H].
      simplify_eq. rewrite StrFacts.append_cons. f_equal. by apply IH.
Qed.

Lemma append_inj_r a x y : a +:+ x = a +:+ y → x = y.
Proof.
  induction a as [|c a IH]; [done|].
  rewrite !StrFacts.append_cons. intros H. apply IH. by simplify_eq.
Qed.

End SplitFacts.

(** ** The DuckDB client *)

Section DuckDBFacts.

Variable client : DuckDB.

Lemma to_reference_plain schema name :
  _view_key_to_table_reference client (schema :: name) false
  = Ok (schema +:+ "." +:+ Str.join _SEP name).
Proof. reflexivity. Qed.

(** A reference whose first dotted part is not the file stem is read as
    [schema.name]. *)
Lemma to_view_key_foreign schema rest :
  Str.contains "." schema = false →
  schema ≠ path_stem client →
  _table_reference_to_view_key client (schema +:+ "." +:+ rest)
  = Ok (schema :: Str.split_upto (String.length rest) _SEP rest).
Proof.
  intros Hdot Hstem. unfold _table_reference_to_view_key, Str.split.
  simpl. rewrite (StrFacts.find_sep_dot _ _ Hdot). simpl.
  apply String.eqb_neq in Hstem. by rewrite Hstem.
Qed.

Lemma split_dot_once s :
  Str.split "." (Some 1) s
  = Ok (match Str.find_sep "." s with
        | Some (before, after) => [before; after]
        | None => [s]
        end).
Proof.
  unfold Str.split, default, id. simpl Str.split_upto.
  by destruct (Str.find_sep "." s) as [[? ?]|].
Qed.

Lemma split_SEP_ok s : ∃ name, Str.split _SEP None s = Ok name.
Proof. by eexists. Qed.

(** Every reference that [list_tables] builds has a view key. *)
Lemma enumerated_has_key schema_name table_name :
  ∃ k,
    _table_reference_to_view_key client
      (path_stem client +:+ "." +:+ schema_name +:+ "." +:+ table_name)
    = Ok k
    ∧ k ≠ [].
Proof.
  unfold _table_reference_to_view_key.
  destruct (SplitFacts.find_sep_some "." (path_stem client)
              (schema_name +:+ "." +:+ table_name)) as (db & rest & Hcut).
  rewrite split_dot_once, Hcut. cbn [bind].
  destruct (String.eqb_spec db (path_stem client)) as [->|_].
  - apply SplitFacts.find_sep_spec in Hcut.
    do 2 apply SplitFacts.append_inj_r in Hcut. subst rest.
    destruct (SplitFacts.find_sep_some "." schema_name table_name)
      as (s & t & Hcut').
    rewrite split_dot_once, Hcut'. cbn [bind].
    destruct (split_SEP_ok t) as [name ->]. cbn [bind]. by eexists.
  - destruct (split_SEP_ok rest) as [name ->]. cbn [bind]. by eexists.
Qed.

(** A view key read from a reference has a schema. *)
Lemma derived_key_nonempty t k :
  _table_reference_to_view_key client t = Ok k → k ≠ [].
Proof.
  unfold _table_reference_to_view_key. rewrite split_dot_once.
  destruct (Str.find_sep "." t) as [[db rest]|]; cbn [bind]; [|done].
  destruct (String.eqb db (path_stem client)).
  - rewrite split_dot_once.
    destruct (Str.find_sep "." rest) as [[s t']|]; cbn [bind]; [|done].
    destruct (split_SEP_ok t') as [name ->]. cbn [bind]. by intros [= <-].
  - destruct (split_SEP_ok rest) as [name ->]. cbn [bind]. by intros [= <-].
Qed.

Lemma delete_view_key_ok k :
  k ≠ [] → ∃ dropped, delete_view_key client k = Ok dropped.
Proof. destruct k; [done|]. intros _. by eexists. Qed.

End DuckDBFacts.

(** C8, as amended. For a view key with a schema and at least one name
    component, whose components contain neither a dot nor the separator,
    whose schema is not the stem of the database file and whose name
    components other than the last do not end in an underscore, the table
    reference of the key (no username scope) is read back as the key. *)
Theorem C8_roundtrip (client : DuckDB) (schema : string) (name : list string) :
  name ≠ [] →
  Forall plain (schema :: name) →
  schema ≠ path_stem client →
  Forall (fun c => Str.endswith "_" c = false) (removelast name) →
  roundtrip client (schema :: name) = Ok (schema :: name).
Proof.
  intros Hname Hplain Hstem Hend.
  unfold roundtrip. rewrite to_reference_plain. simpl.
  apply Forall_cons in Hplain as [[Hdot _] Hplain].
  rewrite (to_view_key_foreign _ _ _ Hdot Hstem).
  rewrite StrFacts.split_upto_join; [done|done| |done|apply StrFacts.length_join].
  eapply Forall_impl; [exact Hplain|]. by intros c [_ ?].
Qed.

Lemma C8_roundtrip_witness :
  ["subschema"; "table"] ≠ []
  ∧ Forall plain ["schema"; "subschema"; "table"]
  ∧ "schema" ≠ path_stem warehouse
  ∧ Forall (fun c => Str.endswith "_" c = false) (removelast ["subschema"; "table"])
  ∧ roundtrip warehouse ["schema"; "subschema"; "table"]
    = Ok ["schema"; "subschema"; "table"].
Proof.
  assert (Forall plain ["schema"; "subschema"; "table"]) as Hplain
    by (repeat constructor).
  assert (Forall (fun c => Str.endswith "_" c = false)
            (removelast ["subschema"; "table"])) as Hend
    by (repeat constructor).
  split; [discriminate|]. split; [exact Hplain|].
  split; [discriminate|]. split; [exact Hend|].
  apply (C8_roundtrip warehouse "schema" ["subschema"; "table"]);
    [discriminate|exact Hplain|discriminate|exact Hend].
Defined.

(** C8, as stated, fails on three kinds of keys whose components contain
    neither a dot nor the separator: a name component ending in an underscore
    moves the cut, a schema equal to the stem of the database file is taken
    for the database, and a key with a schema only comes back with an empty
    name. *)
Lemma C8_roundtrip_counterexample :
  (["core"; "a_"; "b"] ≠ [] ∧ Forall plain ["core"; "a_"; "b"]
   ∧ roundtrip warehouse ["core"; "a_"; "b"] = Ok ["core"; "a"; "_b"])
  ∧ (["warehouse"; "orders"] ≠ [] ∧ Forall plain ["warehouse"; "orders"]
     ∧ roundtrip warehouse ["warehouse"; "orders"] = Raise ValueError)
  ∧ (["core"] ≠ [] ∧ Forall plain ["core"]
     ∧ roundtrip warehouse ["core"] = Ok ["core"; ""]).
Proof.
  repeat split; try discriminate; try reflexivity; repeat constructor.
Qed.

(** ** Script-defined views *)

Section PythonViewFacts.
Import PythonView.

Variable parse_dependencies : obj -> result (list string).

(** A call whose function is not an attribute access yields nothing in
    either block. *)
Lemma call_of_name_skipped id args keywords :
  except_AttributeError
    (read_gbq_block parse_dependencies (Call (Name id) args keywords)) = Ok []
  ∧ except_AttributeError
      (query_block parse_dependencies (Call (Name id) args keywords)) = Ok [].
Proof. split; reflexivity. Qed.

(** A recognised call with no positional argument raises [IndexError],
    which the handler lets through. *)
Lemma read_gbq_without_argument keywords :
  except_AttributeError
    (read_gbq_block parse_dependencies
       (Call (Attribute (Name "pd") "read_gbq") [] keywords))
  = Raise IndexError.
Proof. reflexivity. Qed.

Lemma query_without_argument_raises target attr keywords :
  Str.startswith "query" attr = true →
  except_AttributeError
    (query_block parse_dependencies (Call (Attribute target attr) [] keywords))
  = Raise IndexError.
Proof. intros H. unfold query_block. cbn [get_attr bind]. by rewrite H. Qed.

End PythonViewFacts.

(** C9, at the inputs where the code departs from it. Whatever
    [SQLView.parse_dependencies] does, the [dependencies] of a script that
    calls [pd.read_gbq] with its query passed by keyword, or a method whose
    name starts with [query] with no argument, is an [IndexError] and not a
    set; a call of a plain name is passed over. *)
Theorem C9_dependencies_raise_on_empty_arguments
    (parse_dependencies : PythonView.obj -> result (list string)) :
  PythonView.dependencies parse_dependencies read_gbq_by_keyword
  = Raise IndexError
  ∧ PythonView.dependencies parse_dependencies query_without_argument
    = Raise IndexError
  ∧ PythonView.dependencies parse_dependencies call_of_a_name = Ok ∅.
Proof. repeat split; reflexivity. Qed.

(** C10. Renaming the table references of a script-defined view returns
    the view itself, whatever the mapping, so the engine reads the same
    key, schema and dependencies from it afterwards. *)
Theorem C10_rename_table_references_is_identity
    (parse_dependencies : PythonView.obj -> result (list string))
    (view : PythonView.t) (mapping : option (gmap string string)) :
  PythonView.rename_table_references view mapping = view
  ∧ of_python_view parse_dependencies
      (PythonView.rename_table_references view mapping)
    = of_python_view parse_dependencies view.
Proof. split; reflexivity. Qed.

(** ** The table reference mapping *)

Section Mapping.

Variable client : DuckDB.

Lemma scoped_reference k r :
  _view_key_to_table_reference client k false = Ok r →
  _view_key_to_table_reference client k true = Ok (scoped client r).
Proof.
  destruct k as [|schema name]; [done|]. unfold scoped. simpl.
  intros [= <-]. by destruct (username_set client).
Qed.

(** The dictionary built over a list of keys: a reference of one of the
    keys is mapped to its scoped form, any other is as in the dictionary
    started from. *)
Lemma reference_mapping_lookup keys acc m r :
  reference_mapping client keys acc = Ok m →
  (∀ k, k ∈ keys →
        _view_key_to_table_reference client k false = Ok r →
        m !! r = Some (scoped client r))
  ∧ ((∀ k, k ∈ keys → _view_key_to_table_reference client k false ≠ Ok r) →
     m !! r = acc !! r).
Proof.
  revert acc. induction keys as [|k0 keys IH]; intros acc; simpl.
  - intros [= <-]. split; [intros k Hk; by apply elem_of_nil in Hk|done].
  - destruct (_view_key_to_table_reference client k0 false) as [r0|] eqn:Hr0;
      [|done].
    rewrite (scoped_reference _ _ Hr0). cbn [bind]. intros Hm.
    destruct (IH _ Hm) as [Hin Hout]. split.
    + intros k Hk Hr. apply elem_of_cons in Hk as [->|Hk]; [|by eapply Hin].
      rewrite Hr0 in Hr. injection Hr as ->.
      destruct (decide (Exists
                  (fun k' => _view_key_to_table_reference client k' false = Ok r)
                  keys)) as [Hsome|Hnone].
      * apply Exists_exists in Hsome as (k' & Hk' & Hr'). by eapply Hin.
      * rewrite Hout; [by rewrite lookup_insert_eq|].
        intros k' Hk' Hr'. apply Hnone, Exists_exists. eauto.
    + intros Hnone. rewrite Hout.
      * rewrite lookup_insert_ne; [done|]. intros ->.
        by apply (Hnone k0); [apply elem_of_cons; left|].
      * intros k Hk. apply Hnone, elem_of_cons. by right.
Qed.

(** The default mode returns its dictionary: every reference of a view of
    the graph is mapped to its scoped form and nothing else is mapped. *)
Lemma default_mapping_covers_the_graph d selected m r :
  _make_table_reference_mapping d client selected false = Ok (Some m) →
  (∀ k, k ∈ dag_keys d →
        _view_key_to_table_reference client k false = Ok r →
        m !! r = Some (scoped client r))
  ∧ ((∀ k, k ∈ dag_keys d →
           _view_key_to_table_reference client k false ≠ Ok r) →
     m !! r = None).
Proof.
  unfold _make_table_reference_mapping. simpl.
  destruct (reference_mapping client (dag_keys d) ∅) as [m'|] eqn:Hm; [|done].
  intros [= <-]. destruct (reference_mapping_lookup _ _ _ r Hm) as [Hin Hout].
  split; [done|]. intros Hnone. by rewrite (Hout Hnone), lookup_empty.
Qed.

End Mapping.

(** C2, on the code. With [freeze_unselected] set, the function never
    returns a mapping: reading [select], a name bound neither in the function
    nor in the module, raises [NameError] before the dictionary is built, for
    every graph, client and selection. *)
Theorem C2_freeze_unselected_raises_NameError
    (d : Dag) (client : DuckDB) (selected_view_keys : gset view_key) :
  _make_table_reference_mapping d client selected_view_keys true
  = Raise (NameError "select").
Proof. reflexivity. Qed.

(** ** Running statements *)

(** Reading a field of an updated state. *)
Ltac fields :=
  cbn [dag jobs execution_order jobs_started_at jobs_ended_at exceptions
       skipped cache_file now trace with_dag with_jobs with_execution_order
       with_jobs_started_at with_jobs_ended_at with_exceptions with_skipped
       with_cache_file with_now with_trace] in *.

Section Statements.

Context {A B : Type}.

Lemma seq_ret (a : A) (k : A -> M B) st : seq (ret a) k st = k a st.
Proof. reflexivity. Qed.

Lemma seq_raise (e : exn) (k : A -> M B) st :
  seq (raise e) k st = (Raise e, st).
Proof. reflexivity. Qed.

Lemma seq_lift_ok (a : A) (k : A -> M B) st : seq (lift (Ok a)) k st = k a st.
Proof. reflexivity. Qed.

Lemma seq_lift_raise (e : exn) (k : A -> M B) st :
  seq (lift (Raise e)) k st = (Raise e, st).
Proof. reflexivity. Qed.

Lemma seq_gets (f : Engine -> A) (k : A -> M B) st :
  seq (gets f) k st = k (f st) st.
Proof. reflexivity. Qed.

Lemma seq_modify (f : Engine -> Engine) (k : unit -> M B) st :
  seq (modify f) k st = k tt (f st).
Proof. reflexivity. Qed.

Lemma seq_emit (e : event) (k : unit -> M B) st :
  seq (emit e) k st = k tt (with_trace (trace st ++ [e]) st).
Proof. reflexivity. Qed.

End Statements.

Lemma for_each_emit {X} (l : list X) (f : X -> event) (st : Engine) :
  for_each l (fun x => emit (f x)) st
  = (Ok tt, with_trace (trace st ++ map f l) st).
Proof.
  revert st. induction l as [|x l IH]; intros st; simpl.
  - unfold ret. rewrite app_nil_r. by destruct st.
  - rewrite seq_emit, IH. simpl. by rewrite <- app_assoc.
Qed.

(** ** What statements emit *)

Section Emits.

Variable P : event -> Prop.
Context {A B : Type}.

Lemma emits_only_ret (a : A) : emits_only P (ret a).
Proof. intros st. exists []. by rewrite app_nil_r. Qed.

Lemma emits_only_raise (e : exn) : emits_only P (raise e : M A).
Proof. intros st. exists []. by rewrite app_nil_r. Qed.

Lemma emits_only_lift (r : result A) : emits_only P (lift r).
Proof. intros st. exists []. by rewrite app_nil_r. Qed.

Lemma emits_only_gets (f : Engine -> A) : emits_only P (gets f).
Proof. intros st. exists []. by rewrite app_nil_r. Qed.

Lemma emits_only_modify (f : Engine -> Engine) :
  (∀ st, trace (f st) = trace st) → emits_only P (modify f).
Proof. intros Hf st. exists []. simpl. by rewrite Hf, app_nil_r. Qed.

Lemma emits_only_emit (e : event) : P e → emits_only P (emit e).
Proof. intros He st. exists [e]. by repeat constructor. Qed.

Lemma emits_only_seq (m : M A) (k : A -> M B) :
  emits_only P m → (∀ a, emits_only P (k a)) → emits_only P (seq m k).
Proof.
  intros Hm Hk st. unfold seq.
  destruct (Hm st) as (n1 & H1 & HP1).
  destruct (m st) as [[a|e] st1]; simpl in H1.
  - destruct (Hk a st1) as (n2 & H2 & HP2).
    exists (n1 ++ n2). rewrite H2, H1, app_assoc.
    split; [done|]. by apply Forall_app.
  - by exists n1.
Qed.

End Emits.

Lemma emits_only_for_each (P : event -> Prop) {X} (l : list X)
    (body : X -> M unit) :
  (∀ x, emits_only P (body x)) → emits_only P (for_each l body).
Proof.
  intros Hbody. induction l as [|x l IH]; simpl.
  - apply emits_only_ret.
  - apply emits_only_seq; [apply Hbody|]. by intros _.
Qed.

(** Breaks a statement down to the events it emits. *)
Ltac emits :=
  repeat first
    [ apply emits_only_ret
    | apply emits_only_raise
    | apply emits_only_lift
    | apply emits_only_gets
    | apply emits_only_emit; exact I
    | apply emits_only_modify; intros ?; reflexivity
    | apply emits_only_for_each; intros ?
    | apply emits_only_seq; [|intros ?]
    | match goal with
      | |- emits_only _ (if ?b then _ else _) => destruct b
      | |- emits_only _ (match ?x with _ => _ end) => destruct x
      end ].

(** ** The removal of orphan tables *)

Section Cleanup.

Variable client : DuckDB.
Variable flags : Flags.
Variable world : World.

Lemma with_trace_same st : with_trace (trace st ++ []) st = st.
Proof. rewrite app_nil_r. by destruct st. Qed.

(** One turn of the cleanup on an enumerated table returns and changes
    nothing but the trace. *)
Lemma remove_orphan_enumerated (row : string * string) (st : Engine) :
  remove_orphan client flags
    (path_stem client +:+ "." +:+ row.1 +:+ "." +:+ row.2) st
  = (Ok tt,
     with_trace
       (trace st
        ++ cleanup_events client flags (dag st)
             (path_stem client +:+ "." +:+ row.1 +:+ "." +:+ row.2))
       st).
Proof.
  destruct (enumerated_has_key client row.1 row.2) as (k & Hk & Hne).
  unfold remove_orphan, cleanup_events. rewrite Hk.
  rewrite seq_lift_ok, seq_gets.
  destruct (dag_contains k (dag st)); [by rewrite with_trace_same|].
  destruct (delete_view_key_ok client k Hne) as [dropped ->].
  unfold console_log.
  destruct (dry flags), (quiet flags);
    unfold seq, lift, emit, modify, ret; fields;
    rewrite ?with_trace_same, <- ?app_assoc; reflexivity.
Qed.

Lemma remove_orphans_enumerated (st : Engine) :
  remove_orphans client flags world st
  = (Ok tt,
     with_trace
       (trace st
        ++ flat_map (cleanup_events client flags (dag st))
             (list_tables client (duckdb_tables world)))
       st).
Proof.
  unfold remove_orphans, list_tables.
  generalize (duckdb_tables world) as rows. intros rows. revert st.
  induction rows as [|row rows IH]; intros st; simpl.
  - by rewrite with_trace_same.
  - unfold seq. rewrite remove_orphan_enumerated, IH. fields.
    by rewrite <- app_assoc.
Qed.

Lemma deletions_app tr tr' : deletions (tr ++ tr') = deletions tr ++ deletions tr'.
Proof. apply omap_app. Qed.

Lemma submissions_app tr tr' :
  submissions (tr ++ tr') = submissions tr ++ submissions tr'.
Proof. apply omap_app. Qed.




Lemma deletions_none tr : Forall not_delete tr → deletions tr = [].
Proof.
  induction 1 as [|e tr He _ IH]; [done|].
  change (e :: tr) with ([e] ++ tr). rewrite deletions_app, IH.
  by destruct e.
Qed.

Lemma submissions_none tr : Forall not_submit tr → submissions tr = [].
Proof.
  induction 1 as [|e tr He _ IH]; [done|].
  change (e :: tr) with ([e] ++ tr). rewrite submissions_app, IH.
  by destruct e.
Qed.

End Cleanup.

(** ** Where deletions stand in a run *)

Section NoDelete.

Variable client : DuckDB.
Variable flags : Flags.
Variable world : World.
Variable selected : gset view_key.
Variable mapping : option (gmap string string).
Variable cache : gset view_key.

Lemma get_ready_emits P : emits_only P get_ready.
Proof.
  intros st. exists []. unfold get_ready.
  destruct (dag_get_ready (dag st)). simpl. by rewrite app_nil_r.
Qed.

Lemma handle_ready_emits :
  ∀ v, emits_only not_delete
         (handle_ready client flags world selected mapping cache v).
Proof. intros v. unfold handle_ready, mark_done. emits. Qed.

Lemma poll_job_emits : ∀ v, emits_only not_delete (poll_job world v).
Proof. intros v. unfold poll_job, mark_done. emits. Qed.

Lemma cycle_emits :
  emits_only not_delete (cycle client flags world selected mapping cache).
Proof.
  unfold cycle. apply emits_only_seq; [apply get_ready_emits|]. intros ready.
  apply emits_only_seq; [apply emits_only_for_each, handle_ready_emits|].
  intros _. apply emits_only_seq; [apply emits_only_gets|]. intros started.
  apply emits_only_seq; [apply emits_only_for_each, poll_job_emits|].
  intros _. emits.
Qed.

Lemma loop_emits fuel :
  emits_only not_delete (loop client flags world selected mapping cache fuel).
Proof.
  induction fuel as [|fuel IH]; simpl; [apply emits_only_ret|].
  apply emits_only_seq; [apply emits_only_gets|]. intros d.
  destruct (dag_is_active d); [|apply emits_only_ret].
  apply emits_only_seq; [apply cycle_emits|]. by intros _.
Qed.

Lemma finish_emits : emits_only not_delete (finish flags cache).
Proof. unfold finish, save_cache, summary. emits. Qed.

End NoDelete.

Section RunTrace.

Variable client : DuckDB.
Variable flags : Flags.
Variable world : World.

Lemma console_log_logs (m : message) (st : Engine) :
  console_log flags m st
  = (Ok tt,
     with_trace (trace st ++ (if quiet flags then [] else [Log m])) st).
Proof.
  unfold console_log. destruct (quiet flags); [|done].
  by rewrite with_trace_same.
Qed.

Lemma cleanup_events_not_submit (d : Dag) (tables : list string) :
  Forall not_submit (flat_map (cleanup_events client flags d) tables).
Proof.
  induction tables as [|t tables IH]; [constructor|].
  simpl. apply Forall_app. split; [|exact IH].
  unfold cleanup_events.
  destruct (_table_reference_to_view_key client t) as [k|]; [|constructor].
  destruct (dag_contains k d); [constructor|].
  destruct (dry flags), (delete_view_key client k), (quiet flags);
    by repeat constructor.
Qed.

(** What [run] does once the orphans are removed emits no deletion. *)
Lemma after_cleanup_emits selected mapping fuel :
  emits_only not_delete
    (file <~ gets cache_file ;;
     console_log flags (AlreadyDone (size (load_cache flags file))) >>
     modify (fun st => with_dag (dag_prepare (dag st)) st) >>
     ended <~ loop client flags world selected mapping
                (load_cache flags file) fuel ;;
     if ended then finish flags (load_cache flags file) >> ret true
     else ret false).
Proof.
  apply emits_only_seq; [apply emits_only_gets|]. intros file.
  apply emits_only_seq; [unfold console_log; emits|]. intros _.
  apply emits_only_seq; [emits|]. intros _.
  apply emits_only_seq; [apply loop_emits|]. intros ended.
  destruct ended; [|apply emits_only_ret].
  apply emits_only_seq; [apply finish_emits|]. intros _. apply emits_only_ret.
Qed.



End RunTrace.

Lemma elem_of_orphans client d tables t k :
  (t, k) ∈ orphans client d tables
  ↔ (t ∈ tables
     ∧ _table_reference_to_view_key client t = Ok k
     ∧ (k ∉ dag_keys d)).
Proof.
  unfold orphans. rewrite list_elem_of_omap. split.
  - intros (t' & Ht' & Hsome).
    destruct (_table_reference_to_view_key client t') as [k'|] eqn:Hk';
      [|done].
    unfold dag_contains in Hsome. case_bool_decide; by simplify_eq.
  - intros (Ht & Hk & Hnot). exists t. split; [done|]. rewrite Hk.
    unfold dag_contains. by rewrite bool_decide_eq_false_2.
Qed.

(** The store of the sample holds [core.a], which is a view of the graph,
    and two tables of no view: the pass deletes and reports these two. *)
Example cleanup_sample :
  let after :=
    remove_orphans warehouse Sample.flags Sample.with_orphans
      (with_dag Sample.line (initial Sample.with_orphans)) in
  after.1 = Ok tt
  ∧ trace after.2
    = [Delete ["core"; "gone"] "core.gone";
       Log (Removed "warehouse.core.gone");
       Delete ["staging"; "old"; "orders"] "staging.old__orders";
       Log (Removed "warehouse.staging.old__orders")].
Proof. vm_compute. by split. Qed.


(** ** The ready loop *)

Section Ready.

Variable client : DuckDB.
Variable flags : Flags.
Variable world : World.
Variable selected : gset view_key.
Variable mapping : option (gmap string string).
Variable cache : gset view_key.

#[local] Abbreviation handle :=
  (handle_ready client flags world selected mapping cache).

Lemma handle_unselected view_key st :
  view_key ∉ selected →
  handle view_key st = (Ok tt, with_dag (dag_done view_key (dag st)) st).
Proof.
  intros Hsel. unfold handle_ready.
  by rewrite (bool_decide_eq_false_2 _ Hsel).
Qed.

End Ready.

(** C6. A ready view key outside the selection is marked done in the graph
    and nothing else happens: the statement returns, no job is stored or
    submitted, the trace (submissions, deletions, output) is as before, the
    key enters neither the execution order nor the start and end times, the
    exceptions or the skipped set, and the rows of the summary are those of
    the state before. *)
Theorem C6_unselected_ready_is_only_marked_done
    (client : DuckDB) (flags : Flags) (world : World)
    (selected : gset view_key) (mapping : option (gmap string string))
    (cache : gset view_key) (view_key : view_key) (st : Engine) :
  view_key ∉ selected →
  let after :=
    handle_ready client flags world selected mapping cache view_key st in
  after.1 = Ok tt
  ∧ after.2 = with_dag (dag_done view_key (dag st)) st
  ∧ jobs after.2 = jobs st
  ∧ trace after.2 = trace st
  ∧ execution_order after.2 = execution_order st
  ∧ jobs_started_at after.2 = jobs_started_at st
  ∧ jobs_ended_at after.2 = jobs_ended_at st
  ∧ exceptions after.2 = exceptions st
  ∧ skipped after.2 = skipped st
  ∧ summary_rows after.2 = summary_rows st.
Proof.
  intros Hsel after. subst after.
  rewrite (handle_unselected _ _ _ _ _ _ _ _ Hsel). by repeat split.
Qed.

Lemma C6_unselected_ready_witness :
  (Sample.a ∉ ({[Sample.c]} : gset view_key))
  ∧ (handle_ready warehouse Sample.flags Sample.with_orphans {[Sample.c]} None ∅
       Sample.a Sample.a_errored).2
    = with_dag (dag_done Sample.a (dag Sample.a_errored)) Sample.a_errored.
Proof.
  assert (Sample.a ∉ ({[Sample.c]} : gset view_key)) as Hsel.
  { intros H. apply elem_of_singleton in H. discriminate H. }
  split; [exact Hsel|].
  exact (proj1 (proj2 (C6_unselected_ready_is_only_marked_done
           warehouse Sample.flags Sample.with_orphans {[Sample.c]} None ∅
           Sample.a Sample.a_errored Hsel))).
Defined.

(** ** The poll loop *)

(** A finished job that raised: the poll marks the view done, stamps its
    end, and raises the job's exception; the assignment to [exceptions]
    behind the [raise] is never run. *)
Lemma poll_job_reraises (world : World) (view_key : view_key) (e : exn)
    (st : Engine) :
  Dict.mem view_key (jobs_ended_at st) = false →
  future_done world st view_key = true →
  future_exception world st view_key = Some e →
  (poll_job world view_key st).1 = Raise e
  ∧ exceptions ((poll_job world view_key st).2) = exceptions st
  ∧ Dict.keys (jobs_ended_at ((poll_job world view_key st).2))
    = Dict.keys (Dict.set view_key (now st) (jobs_ended_at st)).
Proof.
  intros Hended Hdone Hexc. unfold poll_job.
  rewrite seq_gets. unfold id. rewrite Hended, Hdone, Hexc. by simpl.
Qed.

(** A run in which every job succeeds: the views are handled in the order
    of their dependencies, none is skipped, and the cache file is removed. *)
Example run_all_build :
  let after :=
    run warehouse Sample.flags Sample.all_build 20 (initial Sample.all_build) in
  after.1 = Ok true
  ∧ execution_order after.2 = [Sample.a; Sample.b; Sample.c]
  ∧ submissions (trace after.2) = [Sample.a; Sample.b; Sample.c]
  ∧ skipped after.2 = ∅
  ∧ cache_file after.2 = None.
Proof. vm_compute. by repeat split. Qed.

(** C1, on the code. Two independent views are submitted; [a] fails at
    once while [b] is still running. The first poll that sees the failure
    raises it out of the loop and out of [run]: nothing is recorded in
    [exceptions], [b] is never observed, the graph is left undrained and the
    cache file is not written. *)
Theorem C1_failed_job_is_raised_out_of_the_loop :
  let after :=
    run warehouse Sample.flags Sample.a_fails_b_runs 20
      (initial Sample.a_fails_b_runs) in
  after.1 = Raise (JobError "boom")
  ∧ exceptions after.2 = []
  ∧ submissions (trace after.2) = [Sample.a; Sample.b]
  ∧ Dict.keys (jobs_ended_at after.2) = [Sample.a]
  ∧ dag_is_active (dag after.2) = true
  ∧ cache_file after.2 = cache_pkl Sample.a_fails_b_runs.
Proof. vm_compute. by repeat split. Qed.

(** ** Dictionaries *)

Lemma elem_of_keys_set {V} (k k' : view_key) (v : V) (d : Dict.t V) :
  k' ∈ Dict.keys (Dict.set k v d) ↔ k' = k ∨ k' ∈ Dict.keys d.
Proof.
  unfold Dict.keys. induction d as [|[k0 v0] d IH]; simpl.
  - rewrite list_elem_of_singleton, elem_of_nil. tauto.
  - destruct (decide (k = k0)) as [->|Hne]; simpl;
      rewrite !elem_of_cons; [tauto|].
    rewrite IH. tauto.
Qed.

(** * Further properties *)

(** ** Cutting and joining strings *)

Module CutFacts.
Import Str.

#[local] Arguments Ascii.eqb : simpl never.

Lemma split_upto_nonempty n sep s : split_upto n sep s ≠ [].
Proof.
  destruct n; simpl; [done|]. by destruct (find_sep sep s) as [[? ?]|].
Qed.

Lemma join_cons sep x l :
  l ≠ [] → join sep (x :: l) = x +:+ sep +:+ join sep l.
Proof. by destruct l. Qed.

(** Joining what a split gave restores the string, however many cuts
    were allowed. *)
Lemma join_split_upto n sep s : join sep (split_upto n sep s) = s.
Proof.
  revert s. induction n as [|n IH]; intros s; simpl; [done|].
  destruct (find_sep sep s) as [[before after]|] eqn:Hcut; [|done].
  rewrite join_cons by apply split_upto_nonempty.
  rewrite IH. symmetry. by apply SplitFacts.find_sep_spec.
Qed.

Lemma startswith_app_l sep s t :
  startswith sep s = true → startswith sep (s +:+ t) = true.
Proof.
  revert s. induction sep as [|a sep IH]; intros s; [done|].
  destruct s as [|b s]; [done|]. rewrite StrFacts.append_cons. simpl.
  destruct (Ascii.eqb a b); [apply IH|done].
Qed.

(** The text before the leftmost occurrence holds no occurrence. *)
Lemma find_sep_before sep s before after :
  sep ≠ EmptyString →
  find_sep sep s = Some (before, after) → contains sep before = false.
Proof.
  intros Hsep. revert before. induction s as [|c s IH]; intros before H.
  - simpl in H. destruct sep; [done|]. discriminate H.
  - simpl in H. destruct (startswith sep (String c s)) eqn:Hs.
    + injection H as <- <-. destruct sep; [done|]. reflexivity.
    + destruct (find_sep sep s) as [[before' after']|] eqn:Hcut; [|done].
      injection H as <- <-. specialize (IH _ eq_refl).
      unfold contains in *. simpl.
      destruct (startswith sep (String c before')) eqn:Hb.
      * apply SplitFacts.find_sep_spec in Hcut. subst s.
        apply (startswith_app_l _ _ (sep +:+ after')) in Hb.
        rewrite StrFacts.append_cons in Hb. congruence.
      * by destruct (find_sep sep before') as [[? ?]|].
Qed.

Lemma find_sep_shorter sep s before after :
  sep ≠ EmptyString →
  find_sep sep s = Some (before, after) →
  String.length after < String.length s.
Proof.
  intros Hsep Hcut. apply SplitFacts.find_sep_spec in Hcut. subst s.
  rewrite !StrFacts.length_append. destruct sep; [done|]. simpl. lia.
Qed.

(** With cuts to spare, no part that a split gives holds the
    separator. *)
Lemma split_upto_parts n sep s :
  sep ≠ EmptyString →
  String.length s ≤ n →
  Forall (fun part => contains sep part = false) (split_upto n sep s).
Proof.
  intros Hsep. revert s. induction n as [|n IH]; intros s Hn; simpl.
  - destruct s; [|simpl in Hn; lia]. constructor; [|constructor].
    destruct sep; [done|]. reflexivity.
  - destruct (find_sep sep s) as [[before after]|] eqn:Hcut.
    + constructor; [by eapply find_sep_before|]. apply IH.
      pose proof (find_sep_shorter _ _ _ _ Hsep Hcut). lia.
    + constructor; [|constructor]. unfold contains. by rewrite Hcut.
Qed.

Lemma append_assoc s t u : (s +:+ t) +:+ u = s +:+ t +:+ u.
Proof.
  induction s as [|a s IH]; [done|].
  rewrite !StrFacts.append_cons. by rewrite IH.
Qed.

(** In a string with two dots, what follows the first dot holds a dot. *)
Lemma dot_after_first_dot a b c before after :
  find_sep "." (a +:+ "." +:+ b +:+ "." +:+ c) = Some (before, after) →
  contains "." after = true.
Proof.
  assert (∀ x y, contains "." (x +:+ "." +:+ y) = true) as Hdot.
  { intros x y. unfold contains.
    by destruct (SplitFacts.find_sep_some "." x y) as (? & ? & ->). }
  destruct (find_sep "." a) as [[a1 a2]|] eqn:Ha.
  - pose proof (find_sep_before "." _ _ _ ltac:(done) Ha) as Ha1.
    apply SplitFacts.find_sep_spec in Ha. subst a.
    rewrite !append_assoc. rewrite (StrFacts.find_sep_dot _ _ Ha1).
    intros [= <- <-]. apply Hdot.
  - rewrite (StrFacts.find_sep_dot a).
    + intros [= <- <-]. apply Hdot.
    + unfold contains. by rewrite Ha.
Qed.

End CutFacts.

(** ** The client: references and view keys *)

Section References.

Variable client : DuckDB.

Lemma split_SEP_all s :
  Str.split _SEP None s = Ok (Str.split_upto (String.length s) _SEP s).
Proof. reflexivity. Qed.

(** How a reference is read, by the place of its first dots. *)
Lemma to_view_key_cases table_reference :
  match Str.find_sep "." table_reference with
  | None => _table_reference_to_view_key client table_reference = Raise ValueError
  | Some (database, leftover) =>
      if String.eqb database (path_stem client) then
        match Str.find_sep "." leftover with
        | None =>
            _table_reference_to_view_key client table_reference
            = Raise ValueError
        | Some (schema, leftover') =>
            _table_reference_to_view_key client table_reference
            = Ok (schema
                  :: Str.split_upto (String.length leftover') _SEP leftover')
        end
      else
        _table_reference_to_view_key client table_reference
        = Ok (database :: Str.split_upto (String.length leftover) _SEP leftover)
  end.
Proof.
  unfold _table_reference_to_view_key. rewrite split_dot_once.
  destruct (Str.find_sep "." table_reference) as [[database leftover]|];
    cbn [bind]; [|done].
  destruct (String.eqb database (path_stem client)); [|done].
  rewrite split_dot_once.
  by destruct (Str.find_sep "." leftover) as [[schema leftover']|].
Qed.

End References.

(** X1. Whenever a table reference is read as a view key, writing that key
    back gives the reference again, without the stem of the database file
    when the reference began with it. *)
Theorem reference_of_derived_key (client : DuckDB) (table_reference : string)
    (key : view_key) :
  _table_reference_to_view_key client table_reference = Ok key →
  ∃ written,
    _view_key_to_table_reference client key false = Ok written
    ∧ (table_reference = written
       ∨ table_reference = path_stem client +:+ "." +:+ written).
Proof.
  intros Hkey. pose proof (to_view_key_cases client table_reference) as Hcases.
  destruct (Str.find_sep "." table_reference) as [[database leftover]|] eqn:Hcut;
    [|congruence].
  apply SplitFacts.find_sep_spec in Hcut.
  destruct (String.eqb_spec database (path_stem client)) as [->|_].
  - destruct (Str.find_sep "." leftover) as [[schema leftover']|] eqn:Hcut';
      [|congruence].
    apply SplitFacts.find_sep_spec in Hcut'.
    rewrite Hcases in Hkey. injection Hkey as <-.
    eexists. split; [reflexivity|]. right.
    by rewrite CutFacts.join_split_upto, <- Hcut'.
  - rewrite Hcases in Hkey. injection Hkey as <-.
    eexists. split; [reflexivity|]. left.
    by rewrite CutFacts.join_split_upto.
Qed.

Lemma reference_of_derived_key_witness :
  _table_reference_to_view_key warehouse "warehouse.staging.old__orders"
  = Ok ["staging"; "old"; "orders"]
  ∧ ∃ written,
      _view_key_to_table_reference warehouse ["staging"; "old"; "orders"] false
      = Ok written
      ∧ ("warehouse.staging.old__orders" = written
         ∨ "warehouse.staging.old__orders"
           = path_stem warehouse +:+ "." +:+ written).
Proof.
  split; [reflexivity|].
  exact (reference_of_derived_key warehouse "warehouse.staging.old__orders"
           ["staging"; "old"; "orders"] eq_refl).
Defined.


(** For a client on a database file, reading a table reference either
    raises [ValueError] or gives a key with a schema free of dots and at
    least one name component, none of which holds the separator; a reference
    without a dot is refused, and one with two dots or more is read. *)
Lemma to_view_key_outcome (client : DuckDB)
    (table_reference : string) :
  match _table_reference_to_view_key client table_reference with
  | Ok key =>
      ∃ schema name,
        key = schema :: name
        ∧ name ≠ []
        ∧ Str.contains "." schema = false
        ∧ Forall (fun c => Str.contains _SEP c = false) name
  | Raise e =>
      e = ValueError
      ∧ ∀ a b c, table_reference ≠ a +:+ "." +:+ b +:+ "." +:+ c
  end
  ∧ (if Str.contains "." table_reference then True
     else _table_reference_to_view_key client table_reference
          = Raise ValueError).
Proof.
  pose proof (to_view_key_cases client table_reference) as Hcases.
  assert (∀ s, Forall (fun c => Str.contains _SEP c = false)
                 (Str.split_upto (String.length s) _SEP s)) as Hparts
    by (intros s; by apply CutFacts.split_upto_parts).
  split.
  - destruct (Str.find_sep "." table_reference) as [[database leftover]|]
      eqn:Hcut.
    + pose proof (CutFacts.find_sep_before "." _ _ _ ltac:(done) Hcut) as Hdb.
      destruct (String.eqb_spec database (path_stem client)) as [->|_].
      * destruct (Str.find_sep "." leftover) as [[schema leftover']|] eqn:Hcut'.
        -- rewrite Hcases. eexists _, _. split; [done|].
           split; [apply CutFacts.split_upto_nonempty|].
           split; [|apply Hparts].
           by eapply (CutFacts.find_sep_before ".").
        -- rewrite Hcases. split; [done|]. intros a b c ->.
           apply CutFacts.dot_after_first_dot in Hcut.
           unfold Str.contains in Hcut. by rewrite Hcut' in Hcut.
      * rewrite Hcases. eexists _, _. split; [done|].
        split; [apply CutFacts.split_upto_nonempty|]. split; [done|].
        apply Hparts.
    + rewrite Hcases. split; [done|]. intros a b c ->.
      destruct (SplitFacts.find_sep_some "." a (b +:+ "." +:+ c))
        as (? & ? & Hsome). congruence.
  - unfold Str.contains.
    destruct (Str.find_sep "." table_reference) as [[? ?]|]; [done|].
    exact Hcases.
Qed.

(** What [list_tables] makes of a key written by the client: the reference
    behind the stem of the file is read back as the key. *)
Lemma enumerated_reference_of_key (client : DuckDB) (schema : string)
    (name : list string) :
  Str.contains "." (path_stem client) = false →
  Str.contains "." schema = false →
  name ≠ [] →
  separable name →
  _table_reference_to_view_key client
    (path_stem client +:+ "." +:+ schema +:+ "." +:+ Str.join _SEP name)
  = Ok (schema :: name).
Proof.
  intros Hstem Hschema Hname [Hsep Hend].
  pose proof (to_view_key_cases client
                (path_stem client +:+ "." +:+ schema +:+ "."
                 +:+ Str.join _SEP name)) as Hcases.
  rewrite (StrFacts.find_sep_dot _ _ Hstem), String.eqb_refl in Hcases.
  rewrite (StrFacts.find_sep_dot _ _ Hschema) in Hcases.
  rewrite Hcases. f_equal. f_equal.
  apply StrFacts.split_upto_join; [done..|apply StrFacts.length_join].
Qed.

(** X3. With a user on the client and a file stem free of dots, a view
    key with a schema free of dots and a separable name, sent to its
    user-scoped reference and back, comes back as it was; the schema may be
    the stem itself and the name components may hold dots. *)
Theorem scoped_roundtrip_ok (client : DuckDB) (schema : string)
    (name : list string) :
  username_set client = true →
  Str.contains "." (path_stem client) = false →
  Str.contains "." schema = false →
  name ≠ [] →
  separable name →
  scoped_roundtrip client (schema :: name) = Ok (schema :: name).
Proof.
  intros Huser Hstem Hschema Hname Hsep.
  unfold scoped_roundtrip, _view_key_to_table_reference.
  rewrite Huser. cbn [andb bind].
  by apply enumerated_reference_of_key.
Qed.

Lemma scoped_roundtrip_ok_witness :
  username_set warehouse_max = true
  ∧ Str.contains "." (path_stem warehouse_max) = false
  ∧ Str.contains "." "warehouse_max" = false
  ∧ ["daily.v2"; "orders"] ≠ []
  ∧ separable ["daily.v2"; "orders"]
  ∧ scoped_roundtrip warehouse_max ["warehouse_max"; "daily.v2"; "orders"]
    = Ok ["warehouse_max"; "daily.v2"; "orders"].
Proof.
  assert (separable ["daily.v2"; "orders"]) as Hsep
    by (split; repeat constructor).
  split; [reflexivity|]. split; [reflexivity|]. split; [reflexivity|].
  split; [discriminate|]. split; [exact Hsep|].
  apply (scoped_roundtrip_ok warehouse_max "warehouse_max"
           ["daily.v2"; "orders"]);
    [reflexivity|reflexivity|reflexivity|discriminate|exact Hsep].
Defined.

(** X4. When neither the file stem nor the schema of an enumerated table
    holds a dot, the table that [delete_view_key] drops for the key derived
    from its reference is that very table, [schema.table]. *)
Theorem delete_names_the_enumerated_table (client : DuckDB)
    (schema_name table_name : string) :
  Str.contains "." (path_stem client) = false →
  Str.contains "." schema_name = false →
  ∃ key,
    _table_reference_to_view_key client
      (path_stem client +:+ "." +:+ schema_name +:+ "." +:+ table_name)
    = Ok key
    ∧ delete_view_key client key = Ok (schema_name +:+ "." +:+ table_name).
Proof.
  intros Hstem Hschema.
  pose proof (to_view_key_cases client
                (path_stem client +:+ "." +:+ schema_name +:+ "."
                 +:+ table_name)) as Hcases.
  rewrite (StrFacts.find_sep_dot _ _ Hstem), String.eqb_refl in Hcases.
  rewrite (StrFacts.find_sep_dot _ _ Hschema) in Hcases.
  eexists. split; [exact Hcases|].
  unfold delete_view_key, _view_key_to_table_reference. cbn [andb].
  by rewrite CutFacts.join_split_upto.
Qed.

Lemma delete_names_the_enumerated_table_witness :
  Str.contains "." (path_stem warehouse) = false
  ∧ Str.contains "." "staging" = false
  ∧ ∃ key,
      _table_reference_to_view_key warehouse
        (path_stem warehouse +:+ "." +:+ "staging" +:+ "." +:+ "old__orders")
      = Ok key
      ∧ delete_view_key warehouse key
        = Ok ("staging" +:+ "." +:+ "old__orders").
Proof.
  split; [reflexivity|]. split; [reflexivity|].
  exact (delete_names_the_enumerated_table warehouse "staging" "old__orders"
           eq_refl eq_refl).
Defined.


(** ** Script-defined views: the walk and the scan *)

Section Walk.
Import PythonView.

Lemma node_count_children n :
  node_count n = S (list_sum (map node_count (iter_child_nodes n))).
Proof.
  destruct n; simpl; rewrite ?map_app, ?list_sum_app; simpl; lia.
Qed.

(** With fuel for every node of the queue, the walk yields as many nodes
    as the trees of the queue hold. *)
Lemma walk_queue_length fuel todo :
  list_sum (map node_count todo) ≤ fuel →
  length (walk_queue fuel todo) = list_sum (map node_count todo).
Proof.
  revert todo. induction fuel as [|fuel IH]; intros todo Hfuel.
  - destruct todo as [|n todo]; [done|].
    simpl in Hfuel. rewrite node_count_children in Hfuel. lia.
  - destruct todo as [|n todo]; [done|]. simpl in *.
    rewrite IH; rewrite map_app, list_sum_app;
      rewrite node_count_children in *; lia.
Qed.

(** ... and every node of those trees is among them. *)
Lemma walk_queue_complete fuel todo n m :
  list_sum (map node_count todo) ≤ fuel →
  n ∈ todo → within m n → m ∈ walk_queue fuel todo.
Proof.
  intros Hfuel Hn Hm. revert fuel todo Hfuel Hn.
  induction Hm as [n|m c n Hc Hm IH]; intros fuel.
  - induction fuel as [|fuel IHf]; intros todo Hfuel Hn.
    + destruct todo as [|x todo]; [by apply elem_of_nil in Hn|].
      simpl in Hfuel. rewrite node_count_children in Hfuel. lia.
    + destruct todo as [|x todo]; [by apply elem_of_nil in Hn|].
      simpl. apply elem_of_cons in Hn as [->|Hn]; [by left|].
      right. apply IHf.
      * simpl in Hfuel. rewrite map_app, list_sum_app.
        rewrite node_count_children in Hfuel. lia.
      * apply elem_of_app. by left.
  - induction fuel as [|fuel IHf]; intros todo Hfuel Hn.
    + destruct todo as [|x todo]; [by apply elem_of_nil in Hn|].
      simpl in Hfuel. rewrite node_count_children in Hfuel. lia.
    + destruct todo as [|x todo]; [by apply elem_of_nil in Hn|].
      assert (list_sum (map node_count (todo ++ iter_child_nodes x)) ≤ fuel)
        as Hnext.
      { simpl in Hfuel. rewrite map_app, list_sum_app.
        rewrite node_count_children in Hfuel. lia. }
      simpl. right. apply elem_of_cons in Hn as [->|Hn].
      * apply IH; [done|]. apply elem_of_app. by right.
      * apply IHf; [done|]. apply elem_of_app. by left.
Qed.

(** The walk yields nodes of the trees of the queue only. *)
Lemma walk_queue_sound fuel todo m :
  m ∈ walk_queue fuel todo → ∃ n, n ∈ todo ∧ within m n.
Proof.
  revert todo. induction fuel as [|fuel IH]; intros todo; simpl.
  - intros H. by apply elem_of_nil in H.
  - destruct todo as [|x todo]; [intros H; by apply elem_of_nil in H|].
    intros [->|Hm]%elem_of_cons.
    + exists x. split; [by left|constructor].
    + destruct (IH _ Hm) as (n & Hn & Hwithin).
      apply elem_of_app in Hn as [Hn|Hn].
      * exists n. split; [by right|done].
      * exists x. split; [by left|]. by eapply within_child.
Qed.

End Walk.

(** The walk of a tree, with the fuel that [walk] gives it, yields the
    nodes of the tree and nothing else, as many as the tree holds. *)
Lemma walk_visits_the_tree (tree m : PythonView.node) :
  (m ∈ PythonView.walk tree ↔ within m tree)
  ∧ length (PythonView.walk tree) = PythonView.node_count tree.
Proof.
  unfold PythonView.walk. split; [split|].
  - intros Hm. destruct (walk_queue_sound _ _ _ Hm) as (n & Hn & Hwithin).
    by apply list_elem_of_singleton in Hn as ->.
  - apply walk_queue_complete; [simpl; lia|by apply list_elem_of_singleton].
  - rewrite walk_queue_length; simpl; lia.
Qed.

Section Scan.
Import PythonView.

Variable parse_dependencies : obj -> result (list string).

Lemma except_ok body r :
  except_AttributeError body = Ok r →
  body = Ok r ∨ (body = Raise AttributeError ∧ r = []).
Proof.
  destruct body as [r'|[]]; simpl; intros H; try discriminate H;
    injection H as <-; auto.
Qed.

Lemma except_raise body e :
  except_AttributeError body = Raise e → body = Raise e ∧ e ≠ AttributeError.
Proof. destruct body as [r'|[]]; simpl; intros H; by simplify_eq. Qed.

Lemma startswith_query_read_gbq attr :
  Str.startswith "query" attr = true → String.eqb attr "read_gbq" = false.
Proof.
  intros H. apply String.eqb_neq. intros ->. discriminate H.
Qed.

(** What the first block makes of a node: nothing, an [IndexError] for a
    call looked into without positional argument, or what parsing the first
    argument of a recognised call gives. *)
Lemma read_gbq_block_cases n :
  except_AttributeError (read_gbq_block parse_dependencies n) = Ok []
  ∨ except_AttributeError (read_gbq_block parse_dependencies n)
    = Raise IndexError
  ∨ ∃ q, recognised n q
         ∧ except_AttributeError (read_gbq_block parse_dependencies n)
           = except_AttributeError (parse_dependencies q).
Proof.
  destruct n as [| | | | | | | | | | |func args keywords]; try (by left).
  unfold read_gbq_block.
  destruct (get_value func) as [v|e] eqn:Hv; cbn [bind];
    [|destruct func; simplify_eq/=; by left].
  destruct (get_id v) as [id|e] eqn:Hid; cbn [bind];
    [|destruct v as [[]|]; simplify_eq/=; by left].
  destruct (String.eqb_spec id "pd") as [->|]; [|by left].
  destruct (get_attr func) as [attr|e] eqn:Hattr; cbn [bind];
    [|destruct func; simplify_eq/=; by left].
  destruct (String.eqb_spec attr "read_gbq") as [->|]; [|by left].
  destruct args as [|a args]; cbn [first_arg bind]; [right; by left|].
  destruct (get_value a) as [q|e] eqn:Hq; cbn [bind];
    [|destruct a; simplify_eq/=; by left].
  right. right. exists q. split; [|done].
  exists func, a, args, keywords. split; [done|]. split; [|done].
  left. destruct func as [| | | | |target attr| | | | | |]; simplify_eq/=.
  destruct target; by simplify_eq/=.
Qed.

Lemma query_block_cases n :
  except_AttributeError (query_block parse_dependencies n) = Ok []
  ∨ except_AttributeError (query_block parse_dependencies n)
    = Raise IndexError
  ∨ ∃ q, recognised n q
         ∧ except_AttributeError (query_block parse_dependencies n)
           = except_AttributeError (parse_dependencies q).
Proof.
  destruct n as [| | | | | | | | | | |func args keywords]; try (by left).
  unfold query_block.
  destruct (get_attr func) as [attr|e] eqn:Hattr; cbn [bind];
    [|destruct func; simplify_eq/=; by left].
  destruct (Str.startswith "query" attr) eqn:Hquery; [|by left].
  destruct args as [|a args]; cbn [first_arg bind]; [right; by left|].
  destruct (get_value a) as [q|e] eqn:Hq; cbn [bind];
    [|destruct a; simplify_eq/=; by left].
  right. right. exists q. split; [|done].
  exists func, a, args, keywords. split; [done|]. split; [|done].
  right. destruct func; simplify_eq/=. eauto.
Qed.

(** A recognised call has its first argument parsed by one of the blocks,
    the other block yielding nothing. *)
Lemma blocks_of_recognised n q :
  recognised n q →
  (except_AttributeError (read_gbq_block parse_dependencies n)
   = except_AttributeError (parse_dependencies q)
   ∧ except_AttributeError (query_block parse_dependencies n) = Ok [])
  ∨ (except_AttributeError (read_gbq_block parse_dependencies n) = Ok []
     ∧ except_AttributeError (query_block parse_dependencies n)
       = except_AttributeError (parse_dependencies q)).
Proof.
  intros (func & a & args & keywords & -> & Hfunc & Hq).
  destruct Hfunc as [->|(target & attr & -> & Hquery)].
  - left. simpl. rewrite Hq. by cbn [bind].
  - right. unfold query_block, read_gbq_block. cbn [get_attr get_value bind].
    rewrite Hquery. cbn [first_arg bind]. rewrite Hq. cbn [bind].
    split; [|done].
    destruct target; try reflexivity. cbn [get_id bind].
    destruct (String.eqb id "pd"); [|done].
    by rewrite (startswith_query_read_gbq _ Hquery).
Qed.

(** What a scan that returns has gathered. *)
Lemma scan_ok nodes found :
  scan parse_dependencies nodes = Ok found →
  (∀ n, n ∈ nodes →
        ∃ r1 r2,
          except_AttributeError (read_gbq_block parse_dependencies n) = Ok r1
          ∧ except_AttributeError (query_block parse_dependencies n) = Ok r2
          ∧ (∀ x, x ∈ r1 ∨ x ∈ r2 → x ∈ found))
  ∧ (∀ x, x ∈ found →
          ∃ n r, n ∈ nodes ∧ x ∈ r
                 ∧ (except_AttributeError (read_gbq_block parse_dependencies n)
                    = Ok r
                    ∨ except_AttributeError (query_block parse_dependencies n)
                      = Ok r)).
Proof.
  revert found. induction nodes as [|n nodes IH]; intros found; simpl.
  - intros [= <-]. split; [intros n Hn|intros x Hx]; by apply elem_of_nil in Hn || apply elem_of_nil in Hx.
  - destruct (except_AttributeError (read_gbq_block parse_dependencies n))
      as [r1|] eqn:H1; cbn [bind]; [|done].
    destruct (except_AttributeError (query_block parse_dependencies n))
      as [r2|] eqn:H2; cbn [bind]; [|done].
    destruct (scan parse_dependencies nodes) as [more|] eqn:Hmore;
      cbn [bind]; [|done].
    intros [= <-]. destruct (IH more eq_refl) as [IHin IHout]. split.
    + intros n' [->|Hn']%elem_of_cons.
      * exists r1, r2. rewrite H1, H2. split; [done|]. split; [done|].
        intros x Hx. rewrite !elem_of_app. tauto.
      * destruct (IHin n' Hn') as (r1' & r2' & Hr1 & Hr2 & Hsub).
        exists r1', r2'. split; [done|]. split; [done|].
        intros x Hx. rewrite !elem_of_app. auto.
    + intros x. rewrite !elem_of_app. intros [Hx|[Hx|Hx]].
      * exists n, r1. rewrite H1. split; [by left|]. auto.
      * exists n, r2. rewrite H2. split; [by left|]. auto.
      * destruct (IHout x Hx) as (n' & r & Hn' & Hxr & Hor).
        exists n', r. split; [by right|]. auto.
Qed.

(** A scan that raises does so on a block of one of its nodes. *)
Lemma scan_raise nodes e :
  scan parse_dependencies nodes = Raise e →
  ∃ n, n ∈ nodes
       ∧ (except_AttributeError (read_gbq_block parse_dependencies n) = Raise e
          ∨ except_AttributeError (query_block parse_dependencies n) = Raise e).
Proof.
  induction nodes as [|n nodes IH]; simpl; [done|].
  destruct (except_AttributeError (read_gbq_block parse_dependencies n))
    as [r1|e1] eqn:H1; cbn [bind].
  2: { intros [= ->]. exists n. split; [by left|]. by left. }
  destruct (except_AttributeError (query_block parse_dependencies n))
    as [r2|e2] eqn:H2; cbn [bind].
  2: { intros [= ->]. exists n. split; [by left|]. by right. }
  destruct (scan parse_dependencies nodes) as [more|e3] eqn:Hmore;
    cbn [bind]; [done|].
  intros [= ->]. destruct (IH eq_refl) as (n' & Hn' & Hor).
  exists n'. split; [by right|done].
Qed.

End Scan.

(** X6. When [dependencies] returns, the set it returns is what parsing
    gave for the first positional arguments of the recognised calls of the
    script, wherever they stand in the tree, and nothing else; and on every
    such argument parsing either returned or raised [AttributeError], which is
    passed over in silence. *)
Theorem dependencies_are_the_recognised_reads
    (parse_dependencies : PythonView.obj -> result (list string))
    (view : PythonView.t) (found : gset string) :
  PythonView.dependencies parse_dependencies view = Ok found →
  (∀ x, x ∈ found
        ↔ ∃ n q deps,
            within n (PythonView.tree view)
            ∧ recognised n q
            ∧ parse_dependencies q = Ok deps
            ∧ x ∈ deps)
  ∧ (∀ n q,
       within n (PythonView.tree view) → recognised n q →
       (∃ deps, parse_dependencies q = Ok deps)
       ∨ parse_dependencies q = Raise AttributeError).
Proof.
  unfold PythonView.dependencies.
  destruct (PythonView.scan parse_dependencies
              (PythonView.walk (PythonView.tree view))) as [l|] eqn:Hscan;
    cbn [bind]; [|done].
  intros [= <-]. destruct (scan_ok _ _ _ Hscan) as [Hin Hout].
  assert (∀ n q r,
            recognised n q →
            PythonView.except_AttributeError (parse_dependencies q) = Ok r →
            ∀ x, x ∈ r → ∃ deps, parse_dependencies q = Ok deps ∧ x ∈ deps)
    as Hparsed.
  { intros n q r _ Hr x Hx. apply except_ok in Hr as [Hr|[_ ->]]; [eauto|].
    by apply elem_of_nil in Hx. }
  split; [intros x; rewrite elem_of_list_to_set; split|].
  - intros Hx. destruct (Hout x Hx) as (n & r & Hn & Hxr & [Hr|Hr]).
    + destruct (read_gbq_block_cases parse_dependencies n)
        as [Hnone|[Hindex|(q & Hrec & Heq)]]; [| congruence |].
      * rewrite Hnone in Hr. injection Hr as <-. by apply elem_of_nil in Hxr.
      * rewrite Heq in Hr.
        destruct (Hparsed n q r Hrec Hr x Hxr) as (deps & Hdeps & Hxd).
        exists n, q, deps. split; [|done].
        by apply walk_visits_the_tree.
    + destruct (query_block_cases parse_dependencies n)
        as [Hnone|[Hindex|(q & Hrec & Heq)]]; [| congruence |].
      * rewrite Hnone in Hr. injection Hr as <-. by apply elem_of_nil in Hxr.
      * rewrite Heq in Hr.
        destruct (Hparsed n q r Hrec Hr x Hxr) as (deps & Hdeps & Hxd).
        exists n, q, deps. split; [|done].
        by apply walk_visits_the_tree.
  - intros (n & q & deps & Hn & Hrec & Hdeps & Hx).
    apply walk_visits_the_tree in Hn.
    destruct (Hin n Hn) as (r1 & r2 & Hr1 & Hr2 & Hsub).
    apply Hsub.
    destruct (blocks_of_recognised parse_dependencies n q Hrec)
      as [[Heq _]|[_ Heq]];
      rewrite Heq, Hdeps in *; simpl in *; simplify_eq; auto.
  - intros n q Hn Hrec. apply walk_visits_the_tree in Hn.
    destruct (Hin n Hn) as (r1 & r2 & Hr1 & Hr2 & _).
    destruct (blocks_of_recognised parse_dependencies n q Hrec)
      as [[Heq _]|[_ Heq]]; rewrite Heq in *.
    + apply except_ok in Hr1 as [?|[? _]]; eauto.
    + apply except_ok in Hr2 as [?|[? _]]; eauto.
Qed.

Lemma dependencies_are_the_recognised_reads_witness :
  PythonView.dependencies literal_reference two_reads
  = Ok {[ "core.orders"; "core.users" ]}
  ∧ (∀ x, x ∈ ({[ "core.orders"; "core.users" ]} : gset string)
          ↔ ∃ n q deps,
              within n (PythonView.tree two_reads)
              ∧ recognised n q
              ∧ literal_reference q = Ok deps
              ∧ x ∈ deps).
Proof.
  assert (PythonView.dependencies literal_reference two_reads
          = Ok {[ "core.orders"; "core.users" ]}) as Hdeps
    by (vm_compute; reflexivity).
  split; [exact Hdeps|].
  exact (proj1 (dependencies_are_the_recognised_reads literal_reference
                  two_reads _ Hdeps)).
Defined.

(** On a tree, [dependencies] never raises [AttributeError]: what it
    raises is an [IndexError], or the exception that parsing a query raised
    on the first positional argument of a recognised call. *)
Lemma tree_raises_only_from_recognised_calls
    (parse_dependencies : PythonView.obj -> result (list string))
    (view : PythonView.t) (e : exn) :
  PythonView.dependencies parse_dependencies view = Raise e →
  e ≠ AttributeError
  ∧ (e = IndexError
     ∨ ∃ n q,
         within n (PythonView.tree view)
         ∧ recognised n q
         ∧ parse_dependencies q = Raise e).
Proof.
  unfold PythonView.dependencies.
  destruct (PythonView.scan parse_dependencies
              (PythonView.walk (PythonView.tree view))) as [l|e'] eqn:Hscan;
    cbn [bind]; [done|].
  intros [= ->]. destruct (scan_raise _ _ _ Hscan) as (n & Hn & Hor).
  apply walk_visits_the_tree in Hn.
  assert (∀ body,
            (body = Ok [] ∨ body = Raise IndexError
             ∨ ∃ q, recognised n q
                    ∧ body = PythonView.except_AttributeError
                               (parse_dependencies q)) →
            body = Raise e →
            e ≠ AttributeError
            ∧ (e = IndexError
               ∨ ∃ n q, within n (PythonView.tree view)
                        ∧ recognised n q
                        ∧ parse_dependencies q = Raise e)) as Hbody.
  { intros body [->|[->|(q & Hrec & ->)]] Hraise; [done| |].
    - injection Hraise as <-. split; [done|by left].
    - apply except_raise in Hraise as [Hraise Hne]. split; [done|].
      right. by exists n, q. }
  destruct Hor as [Hr|Hr].
  - exact (Hbody _ (read_gbq_block_cases parse_dependencies n) Hr).
  - exact (Hbody _ (query_block_cases parse_dependencies n) Hr).
Qed.


(** X7. What [dependencies] raises. When reading the file of the script
    raises, or [ast.parse] refuses its source, [dependencies] raises that
    exception. For a script that is read and parses, [dependencies] never
    raises [AttributeError]: what it raises is an [IndexError], or the
    exception that [SQLView.parse_dependencies] raised on the first positional
    argument of a recognised call of the script. *)
Theorem dependencies_raise_only_from_recognised_calls
    (parse_dependencies : PythonView.obj -> result (list string))
    (read_text : result string)
    (ast_parse : string -> result PythonView.node) (key : view_key) :
  match read_text with
  | Raise e =>
      dependencies_of_file parse_dependencies read_text ast_parse key
      = Raise e
  | Ok source_code =>
      match ast_parse source_code with
      | Raise e =>
          dependencies_of_file parse_dependencies read_text ast_parse key
          = Raise e
      | Ok tree =>
          match
            dependencies_of_file parse_dependencies read_text ast_parse key
          with
          | Ok found =>
              PythonView.dependencies parse_dependencies
                {| PythonView.key := key; PythonView.tree := tree |}
              = Ok found
          | Raise e =>
              e ≠ AttributeError
              ∧ (e = IndexError
                 ∨ ∃ n q,
                     within n tree
                     ∧ recognised n q
                     ∧ parse_dependencies q = Raise e)
          end
      end
  end.
Proof.
  unfold dependencies_of_file.
  destruct read_text as [source_code|e]; [|done]. cbn [bind].
  destruct (ast_parse source_code) as [tree|e]; [|done]. cbn [bind].
  destruct (PythonView.dependencies parse_dependencies _) as [found|e] eqn:Hdeps;
    [done|].
  by apply (tree_raises_only_from_recognised_calls parse_dependencies
              {| PythonView.key := key; PythonView.tree := tree |}).
Qed.

(** ** The run: how a ready view is handled, however it ends *)

Section Handle.

Variable client : DuckDB.
Variable flags : Flags.
Variable world : World.
Variable selected : gset view_key.
Variable mapping : option (gmap string string).
Variable cache : gset view_key.

#[local] Abbreviation handle :=
  (handle_ready client flags world selected mapping cache).

(** The four ways the body of the ready loop ends. *)
Lemma handle_ready_cases v st :
  ((v ∉ selected)
   ∧ handle v st = (Ok tt, with_dag (dag_done v (dag st)) st))
  ∨ (v ∈ selected
     ∧ ∃ e,
         handle v st
         = (Raise e, with_execution_order (execution_order st ++ [v]) st))
  ∨ (v ∈ selected
     ∧ handle v st
       = (Ok tt,
          with_dag (dag_done v (dag st))
            (with_skipped (skipped st ∪ {[v]})
               (with_execution_order (execution_order st ++ [v]) st)))
     ∧ ∃ view deps,
         dag_getitem v (dag st) = Ok view
         ∧ dependencies view = Ok deps
         ∧ any_dependency_failed client (skipped st) (exceptions st) deps
           = Ok true)
  ∨ (v ∈ selected
     ∧ ∃ view,
         dag_getitem v (dag st) = Ok view
         ∧ handle v st
           = (Ok tt,
              with_jobs_started_at
                (Dict.set v (now st) (jobs_started_at st))
                (with_trace
                   (trace st
                    ++ [Submit v (choose_job flags world mapping cache v view)])
                   (with_jobs
                      (Dict.set v (choose_job flags world mapping cache v view)
                         (jobs st))
                      (with_execution_order (execution_order st ++ [v]) st))))).
Proof.
  destruct (decide (v ∈ selected)) as [Hsel|Hsel];
    [right|left; split; [done|]; by apply handle_unselected].
  unfold handle_ready. rewrite (bool_decide_eq_true_2 _ Hsel). cbn [negb].
  rewrite seq_modify, seq_gets. fields.
  destruct (dag_getitem v (dag st)) as [view|e] eqn:Hview.
  2: { rewrite seq_lift_raise. left. split; [done|]. by exists e. }
  rewrite seq_lift_ok.
  destruct (dependencies view) as [deps|e] eqn:Hdeps.
  2: { rewrite seq_lift_raise. left. split; [done|]. by exists e. }
  rewrite seq_lift_ok, seq_gets. unfold id. fields.
  destruct (any_dependency_failed client (skipped st) (exceptions st) deps)
    as [[|]|e] eqn:Hany.
  - rewrite seq_lift_ok. right. left. split; [done|]. split; [done|].
    by exists view, deps.
  - rewrite seq_lift_ok. right. right. split; [done|]. by exists view.
  - rewrite seq_lift_raise. left. split; [done|]. by exists e.
Qed.

Lemma choose_job_fits v view :
  job_fits flags cache v (choose_job flags world mapping cache v view).
Proof.
  unfold choose_job, job_fits.
  destruct (dry flags); [by left|]. cbn [orb].
  case_bool_decide; [by right|].
  by destruct (print_views flags).
Qed.

(** The events of the ready loop are submissions for selected views, of
    the kind that the options and the cache ask for. *)
Lemma handle_ready_fits d v :
  emits_only (event_fits client flags selected cache d) (handle v).
Proof.
  intros st.
  destruct (handle_ready_cases v st)
    as [[_ ->]|[(_ & e & ->)|[(_ & -> & _)|(Hsel & view & _ & ->)]]]; fields.
  - exists []. by rewrite app_nil_r.
  - exists []. by rewrite app_nil_r.
  - exists []. by rewrite app_nil_r.
  - eexists. split; [done|]. constructor; [|constructor].
    split; [done|]. apply choose_job_fits.
Qed.

Lemma poll_job_emits_nothing P v : emits_only P (poll_job world v).
Proof. unfold poll_job, mark_done. emits. Qed.

Lemma cycle_emits_what_handling_does P :
  (∀ v, emits_only P (handle v)) →
  emits_only P (cycle client flags world selected mapping cache).
Proof.
  intros Hhandle. unfold cycle.
  apply emits_only_seq; [apply get_ready_emits|]. intros ready.
  apply emits_only_seq; [by apply emits_only_for_each|].
  intros _. apply emits_only_seq; [apply emits_only_gets|]. intros started.
  apply emits_only_seq;
    [apply emits_only_for_each; intros; apply poll_job_emits_nothing|].
  intros _. emits.
Qed.

Lemma loop_emits_what_handling_does P fuel :
  (∀ v, emits_only P (handle v)) →
  emits_only P (loop client flags world selected mapping cache fuel).
Proof.
  intros Hhandle. induction fuel as [|fuel IH]; simpl; [apply emits_only_ret|].
  apply emits_only_seq; [apply emits_only_gets|]. intros d.
  destruct (dag_is_active d); [|apply emits_only_ret].
  apply emits_only_seq; [by apply cycle_emits_what_handling_does|].
  by intros _.
Qed.

Lemma console_log_fits d m :
  emits_only (event_fits client flags selected cache d) (console_log flags m).
Proof.
  unfold console_log. destruct (quiet flags) eqn:Hquiet;
    [apply emits_only_ret|by apply emits_only_emit].
Qed.

Lemma finish_fits d :
  emits_only (event_fits client flags selected cache d) (finish flags cache).
Proof.
  unfold finish, save_cache, summary.
  apply emits_only_seq; [emits|]. intros _.
  destruct (quiet flags) eqn:Hquiet; [apply emits_only_ret|].
  apply emits_only_seq; [by apply emits_only_emit|]. intros _.
  apply emits_only_seq; [apply emits_only_gets|]. intros st.
  apply emits_only_seq; [by apply emits_only_emit|]. intros _.
  destruct (negb (Dict.is_empty (exceptions st))); [|apply emits_only_ret].
  apply emits_only_seq.
  - apply emits_only_for_each. intros item. by apply emits_only_emit.
  - intros _. destruct (fail_fast flags);
      [apply emits_only_raise|apply emits_only_ret].
Qed.

Lemma cleanup_events_fit d tables :
  Forall (event_fits client flags selected cache d)
    (flat_map (cleanup_events client flags d) tables).
Proof.
  induction tables as [|t tables IH]; [constructor|].
  simpl. apply Forall_app. split; [|exact IH].
  unfold cleanup_events.
  destruct (_table_reference_to_view_key client t) as [k|]; [|constructor].
  unfold dag_contains. case_bool_decide as Hin; [constructor|].
  apply Forall_app. split.
  - destruct (dry flags) eqn:Hdry; [constructor|].
    destruct (delete_view_key client k) as [dropped|] eqn:Hdrop;
      by repeat constructor.
  - destruct (quiet flags) eqn:Hquiet; by repeat constructor.
Qed.

End Handle.

(** ** The events of a whole run *)

Section RunEvents.

Variable client : DuckDB.
Variable flags : Flags.
Variable world : World.

Lemma after_cleanup_fits d selected mapping fuel :
  emits_only
    (event_fits client flags selected
       (load_cache flags (cache_pkl world)) d)
    (console_log flags (AlreadyDone (size (load_cache flags (cache_pkl world))))
     >> modify (fun st => with_dag (dag_prepare (dag st)) st) >>
     ended <~ loop client flags world selected mapping
                (load_cache flags (cache_pkl world)) fuel ;;
     if ended then finish flags (load_cache flags (cache_pkl world)) >> ret true
     else ret false).
Proof.
  apply emits_only_seq; [apply console_log_fits|]. intros _.
  apply emits_only_seq; [emits|]. intros _.
  apply emits_only_seq.
  { apply loop_emits_what_handling_does. intros v. apply handle_ready_fits. }
  intros ended. destruct ended; [|apply emits_only_ret].
  apply emits_only_seq; [apply finish_fits|]. intros _. apply emits_only_ret.
Qed.

(** Every event of a run fits its options, its selection, the cache it
    loaded and the graph it built; a run that cannot build the graph emits
    nothing. *)
Lemma run_events (fuel : nat) :
  match make_dag world (managed_views world) with
  | Ok d =>
      Forall
        (event_fits client flags (run_selection flags world d)
           (load_cache flags (cache_pkl world)) d)
        (trace ((run client flags world fuel (initial world)).2))
  | Raise _ => trace ((run client flags world fuel (initial world)).2) = []
  end.
Proof.
  unfold run.
  destruct (make_dag world (managed_views world)) as [d|e] eqn:Hd.
  2: { by rewrite seq_lift_raise. }
  rewrite seq_lift_ok, seq_modify. unfold seq at 1.
  rewrite console_log_logs. fields.
  fold (run_selection flags world d).
  set (logged := if quiet flags then [] else [Log _]).
  assert (Forall (event_fits client flags (run_selection flags world d)
                    (load_cache flags (cache_pkl world)) d) logged)
    as Hlog.
  { subst logged. destruct (quiet flags) eqn:Hq; by repeat constructor. }
  destruct (_make_table_reference_mapping d client _ (freeze_unselected flags))
    as [mapping|e].
  2: { rewrite seq_lift_raise. by fields. }
  rewrite seq_lift_ok. unfold seq at 1.
  rewrite remove_orphans_enumerated. fields.
  rewrite seq_gets. fields.
  match goal with |- context [(_ (with_trace ?tr ?s)).2] =>
    destruct (after_cleanup_fits d (run_selection flags world d) mapping fuel
                (with_trace tr s))
      as (post & Hpost & Hfits)
  end.
  change (cache_file (initial world)) with (cache_pkl world).
  rewrite Hpost. fields. change (trace (initial world)) with (@nil event).
  apply Forall_app. split; [|done].
  apply Forall_app. split; [done|]. apply cleanup_events_fit.
Qed.

End RunEvents.

(** The default mode of [_make_table_reference_mapping], for a client on
    a database file: it returns a dictionary or raises [ValueError], and it
    raises exactly when the graph has an empty view key; the dictionary maps
    the reference of every view of the graph to its scoped form and nothing
    else. *)
Lemma default_mapping_on_file
    (d : Dag) (client : DuckDB) (selected : gset view_key) :
  match _make_table_reference_mapping d client selected false with
  | Ok (Some m) =>
      Forall (fun k => k ≠ []) (dag_keys d)
      ∧ ∀ r p,
          m !! r = Some p
          ↔ (∃ k, k ∈ dag_keys d
                  ∧ _view_key_to_table_reference client k false = Ok r)
            ∧ p = scoped client r
  | Ok None => False
  | Raise e => e = ValueError ∧ [] ∈ dag_keys d
  end.
Proof.
  assert (∀ keys acc,
            match reference_mapping client keys acc with
            | Ok _ => Forall (fun k => k ≠ []) keys
            | Raise e => e = ValueError ∧ [] ∈ keys
            end) as Hkeys.
  { induction keys as [|k keys IH]; intros acc; simpl; [constructor|].
    destruct k as [|schema name]; simpl.
    - split; [done|]. apply elem_of_cons. by left.
    - destruct (username_set client); cbn [bind];
      match goal with |- context [reference_mapping client keys ?a] =>
        specialize (IH a); destruct (reference_mapping client keys a) as [m|e]
      end; try (by constructor);
      destruct IH as [-> Hin]; (split; [done|]); apply elem_of_cons; auto. }
  destruct (_make_table_reference_mapping d client selected false)
    as [[m|]|e] eqn:Hm.
  - specialize (Hkeys (dag_keys d) ∅).
    pose proof Hm as Hm'. unfold _make_table_reference_mapping in Hm'.
    simpl in Hm'.
    destruct (reference_mapping client (dag_keys d) ∅) as [m'|] eqn:Hm'';
      [|done].
    injection Hm' as <-. split; [done|]. intros r p.
    destruct (default_mapping_covers_the_graph client d selected m' r Hm)
      as [Hin Hout].
    split.
    + intros Hp.
      destruct (decide (Exists
                  (fun k => _view_key_to_table_reference client k false = Ok r)
                  (dag_keys d))) as [Hsome|Hnone].
      * apply Exists_exists in Hsome as (k & Hk & Hr).
        split; [by exists k|]. rewrite (Hin k Hk Hr) in Hp. by injection Hp.
      * rewrite Hout in Hp; [done|]. intros k Hk Hr.
        apply Hnone, Exists_exists. eauto.
    + intros [(k & Hk & Hr) ->]. by apply (Hin k).
  - unfold _make_table_reference_mapping in Hm. simpl in Hm.
    by destruct (reference_mapping client (dag_keys d) ∅).
  - unfold _make_table_reference_mapping in Hm. simpl in Hm.
    specialize (Hkeys (dag_keys d) ∅).
    destruct (reference_mapping client (dag_keys d) ∅); [done|].
    by injection Hm as <-.
Qed.

(** X9. A run submits jobs for selected views only, and the kind of each
    job is the one its options and the cache it loaded ask for: a no-op
    exactly for a dry run or a view found in the cache, else a pretty print
    when the views are to be printed, else a materialization. *)
Theorem run_submits_selected_views_only
    (client : DuckDB) (flags : Flags) (world : World) (fuel : nat) (d : Dag)
    (k : view_key) (job : Job) :
  make_dag world (managed_views world) = Ok d →
  Submit k job ∈ trace ((run client flags world fuel (initial world)).2) →
  k ∈ run_selection flags world d
  ∧ job_fits flags (load_cache flags (cache_pkl world)) k job.
Proof.
  intros Hd Hin. pose proof (run_events client flags world fuel) as Hfits.
  rewrite Hd in Hfits. rewrite Forall_forall in Hfits.
  exact (Hfits _ Hin).
Qed.

Lemma run_submits_selected_views_only_witness :
  Sample.a ∈ run_selection Sample.flags Sample.all_build Sample.line
  ∧ job_fits Sample.flags
      (load_cache Sample.flags (cache_pkl Sample.all_build)) Sample.a
      (Materialize (Sample.plain_view Sample.a [])).
Proof.
  apply (run_submits_selected_views_only warehouse Sample.flags
           Sample.all_build 10 Sample.line); [reflexivity|].
  apply list_elem_of_lookup_2 with 2. vm_compute. reflexivity.
Defined.

(** X10. A dry run leaves the database alone: it deletes no table, and
    every job it submits is the no-op. *)
Theorem dry_run_only_submits_no_ops
    (client : DuckDB) (flags : Flags) (world : World) (fuel : nat) :
  dry flags = true →
  Forall
    (fun e =>
       match e with
       | Delete _ _ => False
       | Submit _ job => job = DoNothing
       | _ => True
       end)
    (trace ((run client flags world fuel (initial world)).2)).
Proof.
  intros Hdry. pose proof (run_events client flags world fuel) as Hfits.
  destruct (make_dag world (managed_views world)) as [d|e];
    [|rewrite Hfits; constructor].
  eapply Forall_impl; [exact Hfits|]. intros [m|k t|k job|rows|k e]; simpl;
    try done.
  - intros [Hnot _]. congruence.
  - intros [_ Hjob]. destruct job as [|view|view]; simpl in Hjob;
      [done|destruct Hjob; congruence|destruct Hjob; congruence].
Qed.

Lemma dry_run_only_submits_no_ops_witness :
  Forall
    (fun e =>
       match e with
       | Delete _ _ => False
       | Submit _ job => job = DoNothing
       | _ => True
       end)
    (trace
       ((run warehouse MoreSamples.dry_run Sample.with_orphans 10
           (initial Sample.with_orphans)).2)).
Proof.
  apply (dry_run_only_submits_no_ops warehouse MoreSamples.dry_run
           Sample.with_orphans 10).
  reflexivity.
Defined.

(** X11. A silent run and a print-only run emit no log line, no summary
    and no error detail, however they end; what a print-only run shows is what
    its jobs print. *)
Theorem quiet_run_logs_nothing
    (client : DuckDB) (flags : Flags) (world : World) (fuel : nat) :
  print_views flags = true ∨ silent flags = true →
  Forall (fun e => ¬ console_event e)
    (trace ((run client flags world fuel (initial world)).2)).
Proof.
  intros Hquiet.
  assert (quiet flags = true) as Hq.
  { unfold quiet. destruct Hquiet as [-> | ->]; [done|apply orb_true_r]. }
  pose proof (run_events client flags world fuel) as Hfits.
  destruct (make_dag world (managed_views world)) as [d|e];
    [|rewrite Hfits; constructor].
  eapply Forall_impl; [exact Hfits|]. intros [m|k t|k job|rows|k e]; simpl;
    intros H; try congruence; tauto.
Qed.

Lemma quiet_run_logs_nothing_witness :
  Forall (fun e => ¬ console_event e)
    (trace
       ((run warehouse MoreSamples.silent_run Sample.with_orphans 10
           (initial Sample.with_orphans)).2)).
Proof.
  apply (quiet_run_logs_nothing warehouse MoreSamples.silent_run
           Sample.with_orphans 10).
  right. reflexivity.
Defined.

(** X12. A run with [freeze_unselected] set never gets past the table
    reference mapping: it raises, either what building the graph raised or
    the [NameError] on [select], before any table is deleted or any job
    submitted, and it leaves the cache file as it found it. *)
Theorem frozen_run_stops_at_the_mapping
    (client : DuckDB) (flags : Flags) (world : World) (fuel : nat) :
  freeze_unselected flags = true →
  ∃ e st,
    run client flags world fuel (initial world) = (Raise e, st)
    ∧ (e = NameError "select"
       ∨ make_dag world (managed_views world) = Raise e)
    ∧ deletions (trace st) = []
    ∧ submissions (trace st) = []
    ∧ cache_file st = cache_pkl world.
Proof.
  intros Hfreeze. unfold run.
  destruct (make_dag world (managed_views world)) as [d|e] eqn:Hd.
  2: { rewrite seq_lift_raise. exists e, (initial world). auto. }
  rewrite seq_lift_ok, seq_modify. unfold seq at 1.
  rewrite console_log_logs. fields. rewrite Hfreeze.
  change (_make_table_reference_mapping d client ?s true)
    with (@Raise (option (gmap string string)) (NameError "select")).
  rewrite seq_lift_raise. eexists _, _. split; [reflexivity|]. fields.
  split; [by left|]. by destruct (quiet flags).
Qed.

Lemma frozen_run_stops_at_the_mapping_witness :
  ∃ e st,
    run warehouse MoreSamples.frozen_run Sample.line_world 10
      (initial Sample.line_world)
    = (Raise e, st)
    ∧ (e = NameError "select"
       ∨ make_dag Sample.line_world (managed_views Sample.line_world)
         = Raise e)
    ∧ deletions (trace st) = []
    ∧ submissions (trace st) = []
    ∧ cache_file st = cache_pkl Sample.line_world.
Proof.
  apply (frozen_run_stops_at_the_mapping warehouse MoreSamples.frozen_run
           Sample.line_world 10).
  reflexivity.
Defined.

(** ** What the loop keeps *)

Section Keeps.

Variable I : Engine -> Prop.

Lemma keeps_ret {A} (a : A) : keeps I (ret a).
Proof. by intros st. Qed.

Lemma keeps_raise {A} (e : exn) : keeps I (raise e : M A).
Proof. by intros st. Qed.

Lemma keeps_lift {A} (r : result A) : keeps I (lift r).
Proof. by intros st. Qed.

Lemma keeps_gets {A} (f : Engine -> A) : keeps I (gets f).
Proof. by intros st. Qed.

Lemma keeps_modify (f : Engine -> Engine) :
  (∀ st, I st → I (f st)) → keeps I (modify f).
Proof. intros Hf st. apply Hf. Qed.

Lemma keeps_seq {A B} (m : M A) (k : A -> M B) :
  keeps I m → (∀ a, keeps I (k a)) → keeps I (seq m k).
Proof.
  intros Hm Hk st Hst. unfold seq. specialize (Hm st Hst).
  destruct (m st) as [[a|e] st1]; [by apply Hk|done].
Qed.

Lemma keeps_for_each {X} (l : list X) (f : X -> M unit) :
  (∀ x, keeps I (f x)) → keeps I (for_each l f).
Proof.
  intros Hf. induction l as [|x l IH]; simpl; [apply keeps_ret|].
  apply keeps_seq; [apply Hf|]. by intros _.
Qed.

End Keeps.

Section LoopKeeps.

Variable client : DuckDB.
Variable flags : Flags.
Variable world : World.
Variable selected : gset view_key.
Variable mapping : option (gmap string string).
Variable cache : gset view_key.
Variable I : Engine -> Prop.

Hypothesis I_dag : ∀ d st, I st → I (with_dag d st).
Hypothesis I_now : ∀ n st, I st → I (with_now n st).
Hypothesis I_handle :
  ∀ v, keeps I (handle_ready client flags world selected mapping cache v).
Hypothesis I_poll : ∀ v, keeps I (poll_job world v).

Lemma cycle_keeps :
  keeps I (cycle client flags world selected mapping cache).
Proof.
  unfold cycle. apply keeps_seq.
  { intros st Hst. unfold get_ready.
    destruct (dag_get_ready (dag st)) as [ready d]. by apply I_dag. }
  intros ready. apply keeps_seq; [by apply keeps_for_each|]. intros _.
  apply keeps_seq; [apply keeps_gets|]. intros started.
  apply keeps_seq; [by apply keeps_for_each|]. intros _.
  apply keeps_modify. intros st. apply I_now.
Qed.

Lemma loop_keeps fuel :
  keeps I (loop client flags world selected mapping cache fuel).
Proof.
  induction fuel as [|fuel IH]; simpl; [apply keeps_ret|].
  apply keeps_seq; [apply keeps_gets|]. intros d.
  destruct (dag_is_active d); [|apply keeps_ret].
  apply keeps_seq; [apply cycle_keeps|]. by intros _.
Qed.

End LoopKeeps.

(** ** No failure is ever recorded *)

Section NoFailure.

Variable client : DuckDB.
Variable flags : Flags.
Variable world : World.

(** With nothing skipped and no error on record, no dependency is found
    failed. *)
Lemma any_dependency_failed_clean deps :
  any_dependency_failed client ∅ [] deps ≠ Ok true.
Proof.
  induction deps as [|dep deps IH]; simpl; [done|].
  destruct (_table_reference_to_view_key client dep) as [k|]; [|done].
  cbn [bind]. rewrite bool_decide_eq_false_2 by set_solver. done.
Qed.

(** The loop records no failure and leaves the cache file alone. *)
Lemma loop_records_no_failure selected mapping cache fuel file :
  keeps (fun st => clean st ∧ cache_file st = file)
    (loop client flags world selected mapping cache fuel).
Proof.
  apply loop_keeps.
  - by intros d st.
  - by intros n st.
  - intros v st [[Hexc Hskip] Hfile].
    destruct (handle_ready_cases client flags world selected mapping cache v st)
      as [[_ ->]|[(_ & e & ->)|[(_ & _ & view & deps & _ & _ & Hany)
                               |(_ & view & _ & ->)]]];
      unfold clean; fields; try done.
    rewrite Hexc, Hskip in Hany. by apply any_dependency_failed_clean in Hany.
  - intros v st [[Hexc Hskip] Hfile]. unfold poll_job.
    rewrite seq_gets. unfold id.
    destruct (negb (Dict.mem v (jobs_ended_at st)) && future_done world st v);
      [|done].
    unfold mark_done. rewrite !seq_modify. fields.
    destruct (future_exception world st v); [by rewrite seq_raise|done].
Qed.

End NoFailure.

(** X13. Whatever the jobs do, a run ends with no error recorded and no
    view skipped; it never writes the cache file: a run that returns with
    its loop ended has removed the file, and a run that ends in any other
    way leaves it as it found it. *)
Theorem run_records_no_failure
    (client : DuckDB) (flags : Flags) (world : World) (fuel : nat) :
  clean ((run client flags world fuel (initial world)).2)
  ∧ cache_file ((run client flags world fuel (initial world)).2)
    = match (run client flags world fuel (initial world)).1 with
      | Ok true => None
      | _ => cache_pkl world
      end.
Proof.
  remember (run client flags world fuel (initial world)) as outcome eqn:Hrun.
  revert Hrun. unfold run.
  destruct (make_dag world (managed_views world)) as [d|e] eqn:Hd.
  2: { rewrite seq_lift_raise. by intros ->. }
  rewrite seq_lift_ok, seq_modify. unfold seq at 1.
  rewrite console_log_logs. fields.
  destruct (_make_table_reference_mapping d client _ (freeze_unselected flags))
    as [mapping|e].
  2: { rewrite seq_lift_raise. by intros ->. }
  rewrite seq_lift_ok. unfold seq at 1.
  rewrite remove_orphans_enumerated. fields.
  rewrite seq_gets. fields. unfold seq at 1.
  rewrite console_log_logs. fields. rewrite seq_modify. fields.
  change (cache_file (initial world)) with (cache_pkl world).
  unfold seq at 1.
  match goal with |- context [loop client flags world ?sel mapping ?c fuel ?s] =>
    pose proof (loop_records_no_failure client flags world sel mapping c fuel
                  (cache_pkl world) s) as Hloop;
    destruct (loop client flags world sel mapping c fuel s)
      as [[[|]|e] st] eqn:Hended
  end; cbn [snd] in Hloop.
  - destruct Hloop as [[Hexc Hskip] Hfile]; [done|].
    unfold finish, save_cache. unfold seq at 1. rewrite seq_modify.
    unfold new_cache. rewrite Hexc, Hskip. simpl Dict.is_empty. cbn [andb].
    case_bool_decide; [|done]. case_bool_decide; [|done].
    unfold summary. destruct (quiet flags); [by intros ->|].
    rewrite seq_emit, seq_gets, seq_emit. unfold id. fields.
    rewrite Hexc. by intros ->.
  - intros ->. by apply Hloop.
  - intros ->. by apply Hloop.
Qed.

(** ** The books of a run *)

Lemma keys_set {V} (k : view_key) (v : V) (d : Dict.t V) :
  Dict.keys (Dict.set k v d)
  = if bool_decide (k ∈ Dict.keys d) then Dict.keys d else Dict.keys d ++ [k].
Proof.
  unfold Dict.keys. induction d as [|[k0 v0] d IH].
  - case_bool_decide as Hin; [by apply elem_of_nil in Hin|done].
  - cbn [Dict.set map fst].
    destruct (decide (k = k0)) as [->|Hne]; cbn [map fst].
    + clear IH. case_bool_decide as Hin; [done|]. exfalso.
      apply Hin, elem_of_cons.
      by left.
    + rewrite IH. clear IH. repeat case_bool_decide; try done.
      * exfalso. match goal with H : _ ∉ _ :: _ |- _ => apply H end.
        apply elem_of_cons. by right.
      * exfalso.
        match goal with H : _ ∈ _ :: _ |- _ =>
          apply elem_of_cons in H as [?|?]
        end; done.
Qed.

Lemma get_some_mem {V} (k : view_key) (v : V) (d : Dict.t V) :
  Dict.get k d = Some v → k ∈ Dict.keys d.
Proof.
  unfold Dict.keys. induction d as [|[k0 v0] d IH]; simpl; [done|].
  destruct (decide (k = k0)) as [->|Hne].
  - intros _. apply elem_of_cons. by left.
  - intros Hget. apply elem_of_cons. right. by apply IH.
Qed.

Section Books.

Variable client : DuckDB.
Variable flags : Flags.
Variable world : World.
Variable selected : gset view_key.

(** The books agree and only selected views are in the execution order. *)
#[local] Abbreviation in_order st :=
  (books_agree st ∧ ∀ k, k ∈ execution_order st → k ∈ selected).

Lemma handle_ready_books mapping cache v :
  keeps (fun st => in_order st)
    (handle_ready client flags world selected mapping cache v).
Proof.
  intros st [(Hkeys & Hsub & Hend & Hjobs & Hskip) Hsel].
  destruct (handle_ready_cases client flags world selected mapping cache v st)
    as [[_ ->]|[(Hv & e & ->)|[(Hv & -> & _)|(Hv & view & _ & ->)]]];
    unfold books_agree; cbn [snd]; fields.
  - done.
  - split_and!; try done.
    + intros k Hk. apply elem_of_app. left. by apply Hjobs.
    + intros k Hk. apply elem_of_app. left. by apply Hskip.
    + intros k [Hk| ->%list_elem_of_singleton]%elem_of_app; auto.
  - split_and!; try done.
    + intros k Hk. apply elem_of_app. left. by apply Hjobs.
    + intros k [Hk| ->%elem_of_singleton]%elem_of_union; apply elem_of_app.
      * left. by apply Hskip.
      * right. by apply list_elem_of_singleton.
    + intros k [Hk| ->%list_elem_of_singleton]%elem_of_app; auto.
  - split_and!.
    + rewrite !keys_set, Hkeys. done.
    + intros k. rewrite elem_of_keys_set, submissions_app, elem_of_app. simpl.
      rewrite list_elem_of_singleton, Hsub. tauto.
    + intros k Hk. apply elem_of_keys_set. right. by apply Hend.
    + intros k [->|Hk]%elem_of_keys_set; apply elem_of_app.
      * right. by apply list_elem_of_singleton.
      * left. by apply Hjobs.
    + intros k Hk. apply elem_of_app. left. by apply Hskip.
    + intros k [Hk| ->%list_elem_of_singleton]%elem_of_app; auto.
Qed.

Lemma poll_job_keeps_books v :
  keeps (fun st => in_order st) (poll_job world v).
Proof.
  intros st [(Hkeys & Hsub & Hend & Hjobs & Hskip) Hsel]. unfold poll_job.
  rewrite seq_gets. unfold id.
  destruct (negb (Dict.mem v (jobs_ended_at st))) eqn:Hmem; cbn [andb];
    [|done].
  destruct (future_done world st v) eqn:Hdone; [|done].
  assert (v ∈ Dict.keys (jobs_started_at st)) as Hstarted.
  { unfold future_done in Hdone.
    destruct (Dict.get v (jobs_started_at st)) as [t|] eqn:Hget; [|done].
    by eapply get_some_mem. }
  unfold mark_done. rewrite !seq_modify. fields.
  assert (in_order
            (with_jobs_ended_at (Dict.set v (now st) (jobs_ended_at st))
               (with_dag (dag_done v (dag st)) st))) as Hnew.
  { unfold books_agree. fields. split_and!; try done.
    intros k [->|Hk]%elem_of_keys_set; [done|]. by apply Hend. }
  destruct (future_exception world st v); [by rewrite seq_raise|done].
Qed.

Lemma loop_keeps_books mapping cache fuel :
  keeps (fun st => in_order st)
    (loop client flags world selected mapping cache fuel).
Proof.
  apply loop_keeps.
  - by intros d st.
  - by intros n st.
  - apply handle_ready_books.
  - apply poll_job_keeps_books.
Qed.

Lemma finish_keeps_books cache :
  keeps (fun st => in_order st) (finish flags cache).
Proof.
  intros st [(Hkeys & Hsub & Hend & Hjobs & Hskip) Hsel].
  unfold finish, save_cache. rewrite seq_modify.
  match goal with |- context [summary flags ?s] =>
    assert (in_order s) as Hs by done; revert Hs; generalize s
  end.
  clear. intros st Hst. unfold summary.
  destruct (quiet flags); [done|].
  rewrite seq_emit, seq_gets, seq_emit. unfold id. fields.
  assert (∀ new, Forall not_submit new →
            in_order (with_trace (trace st ++ new) st)) as Hnew.
  { intros new Hnone. destruct Hst as [(Hkeys & Hsub & Hend & Hjobs & Hskip) Hsel].
    unfold books_agree. fields.
    rewrite submissions_app, (submissions_none new Hnone), app_nil_r.
    done. }
  destruct (Dict.is_empty (exceptions st)); cbn [negb].
  - rewrite <- app_assoc. apply Hnew. by repeat constructor.
  - unfold seq.
    rewrite !(for_each_emit _ (fun item => ErrorDetail item.1 item.2)).
    fields.
    assert (in_order
              (with_trace
                 (((trace st ++ [Log Took])
                   ++ [Summary (summary_rows
                                  (with_trace (trace st ++ [Log Took]) st))])
                  ++ map (fun item => ErrorDetail item.1 item.2)
                       (exceptions st))
                 st)) as Hafter.
    { rewrite <- !app_assoc. apply Hnew. repeat constructor.
      apply Forall_forall. intros e (item & -> & _)%list_elem_of_fmap. done. }
    by destruct (fail_fast flags).
Qed.

End Books.

(** X14. However a run ends, its books agree: the views with a stored job
    are the views with a start time and the views for which a job was
    submitted, a view has an end time only if it has a start time, a view with
    a job or a skip is in the execution order, and only selected views are in
    the execution order. *)
Theorem run_keeps_its_books
    (client : DuckDB) (flags : Flags) (world : World) (fuel : nat) :
  books_agree ((run client flags world fuel (initial world)).2)
  ∧ match make_dag world (managed_views world) with
    | Ok d =>
        Forall (fun k => k ∈ run_selection flags world d)
          (execution_order ((run client flags world fuel (initial world)).2))
    | Raise _ =>
        execution_order ((run client flags world fuel (initial world)).2) = []
    end.
Proof.
  remember (run client flags world fuel (initial world)) as outcome eqn:Hrun.
  revert Hrun. unfold run.
  assert (∀ d new,
            Forall not_submit new →
            books_agree (with_trace new (with_dag d (initial world))))
    as Hbooks.
  { intros d new Hnone. unfold books_agree. fields. simpl.
    rewrite (submissions_none new Hnone). split_and!; try done;
      intros k Hk; by apply elem_of_nil in Hk. }
  destruct (make_dag world (managed_views world)) as [d|e] eqn:Hd.
  2: { rewrite seq_lift_raise. intros ->. split; [|done].
       apply (Hbooks empty_dag []). constructor. }
  rewrite seq_lift_ok, seq_modify. unfold seq at 1.
  rewrite console_log_logs. fields.
  fold (run_selection flags world d).
  set (logged := if quiet flags then [] else [Log _]).
  assert (Forall not_submit logged) as Hlog.
  { subst logged. destruct (quiet flags); by repeat constructor. }
  destruct (_make_table_reference_mapping d client _ (freeze_unselected flags))
    as [mapping|e].
  2: { rewrite seq_lift_raise. intros ->. split; [|by constructor].
       by apply Hbooks. }
  rewrite seq_lift_ok. unfold seq at 1.
  rewrite remove_orphans_enumerated. fields.
  rewrite seq_gets. fields. unfold seq at 1.
  rewrite console_log_logs. fields. rewrite seq_modify. fields.
  set (told := if quiet flags then [] else [Log _]).
  assert (Forall not_submit told) as Htold.
  { subst told. destruct (quiet flags); by repeat constructor. }
  change (trace (initial world)) with (@nil event). rewrite app_nil_l.
  unfold seq at 1.
  match goal with |- context [loop client flags world ?sel mapping ?c fuel ?s] =>
    pose proof (loop_keeps_books client flags world sel mapping c fuel s)
      as Hloop;
    destruct (loop client flags world sel mapping c fuel s)
      as [[[|]|e] st] eqn:Hended
  end; cbn [snd] in Hloop.
  all: assert (books_agree st
               ∧ ∀ k, k ∈ execution_order st → k ∈ run_selection flags world d)
         as Hst;
    [apply Hloop; split;
       [|intros k Hk; by apply elem_of_nil in Hk];
       unfold books_agree; fields; simpl;
       rewrite submissions_none;
       [split_and!; try done; intros k Hk; by apply elem_of_nil in Hk
       |repeat (apply Forall_app; split); try done;
        apply cleanup_events_not_submit]
    |].
  - unfold seq.
    pose proof (finish_keeps_books flags (run_selection flags world d)
                  (load_cache flags (cache_file (initial world))) st Hst)
      as Hfinish.
    destruct (finish flags _ st) as [[[]|e] st']; intros ->;
      (split; [apply Hfinish|apply Forall_forall, Hfinish]).
  - intros ->. split; [apply Hst|apply Forall_forall, Hst].
  - intros ->. split; [apply Hst|apply Forall_forall, Hst].
Qed.

(** ** A dependency named without a schema *)

Section Undotted.

Variable client : DuckDB.

Lemma to_view_key_undotted t :
  Str.contains "." t = false →
  _table_reference_to_view_key client t = Raise ValueError.
Proof.
  intros Hnone. pose proof (to_view_key_cases client t) as Hcases.
  unfold Str.contains in Hnone.
  by destruct (Str.find_sep "." t) as [[? ?]|].
Qed.

Lemma to_view_key_raises t e :
  _table_reference_to_view_key client t = Raise e → e = ValueError.
Proof.
  pose proof (to_view_key_cases client t) as Hcases.
  destruct (Str.find_sep "." t) as [[database leftover]|]; [|congruence].
  destruct (String.eqb database (path_stem client)); [|congruence].
  destruct (Str.find_sep "." leftover) as [[? ?]|]; congruence.
Qed.

Lemma any_dependency_failed_undotted deps dep :
  dep ∈ deps → Str.contains "." dep = false →
  any_dependency_failed client ∅ [] deps = Raise ValueError.
Proof.
  intros Hin Hnone. induction deps as [|dep0 deps IH]; simpl.
  - by apply elem_of_nil in Hin.
  - destruct (_table_reference_to_view_key client dep0) as [k|e] eqn:Hk.
    + cbn [bind]. rewrite bool_decide_eq_false_2 by set_solver.
      cbn [orb]. change (Dict.mem k []) with (bool_decide (k ∈ @nil view_key)).
      rewrite bool_decide_eq_false_2 by apply not_elem_of_nil.
      apply elem_of_cons in Hin as [->|Hin]; [|by apply IH].
      by rewrite (to_view_key_undotted _ Hnone) in Hk.
    + apply to_view_key_raises in Hk. by subst e.
Qed.

End Undotted.

(** X15. A selected ready view with a dependency named without a schema
    stops the run: when no error and no skip is on record, as in every run,
    the body of the ready loop raises [ValueError] on reading that dependency
    as a view key, after it has put the view in the execution order and
    before any job is submitted for it. *)
Theorem dependency_without_schema_raises
    (client : DuckDB) (flags : Flags) (world : World)
    (selected : gset view_key) (mapping : option (gmap string string))
    (cache : gset view_key) (v : view_key) (st : Engine) (view : View)
    (deps : list string) (dep : string) :
  clean st →
  v ∈ selected →
  dag_getitem v (dag st) = Ok view →
  dependencies view = Ok deps →
  dep ∈ deps →
  Str.contains "." dep = false →
  handle_ready client flags world selected mapping cache v st
  = (Raise ValueError, with_execution_order (execution_order st ++ [v]) st).
Proof.
  intros [Hexc Hskip] Hsel Hview Hdeps Hin Hnone. unfold handle_ready.
  rewrite (bool_decide_eq_true_2 _ Hsel). cbn [negb].
  rewrite seq_modify, seq_gets. fields. rewrite Hview, seq_lift_ok.
  rewrite Hdeps, seq_lift_ok, seq_gets. unfold id. fields.
  rewrite Hexc, Hskip.
  by rewrite (any_dependency_failed_undotted client deps dep Hin Hnone).
Qed.

Lemma dependency_without_schema_raises_witness :
  handle_ready warehouse Sample.flags Sample.all_build {[Sample.a]} None ∅
    Sample.a MoreSamples.at_undotted
  = (Raise ValueError,
     with_execution_order [Sample.a] MoreSamples.at_undotted).
Proof.
  apply (dependency_without_schema_raises warehouse Sample.flags
           Sample.all_build {[Sample.a]} None ∅ Sample.a
           MoreSamples.at_undotted (Sample.plain_view Sample.a ["orders"])
           ["orders"] "orders").
  - split; reflexivity.
  - apply (bool_decide_unpack _). vm_compute. exact I.
  - reflexivity.
  - reflexivity.
  - apply (bool_decide_unpack _). vm_compute. exact I.
  - reflexivity.
Defined.

(** ** The path of the client *)

(** X16. [is_motherduck] never answers no: on a client made by [__init__]
    it is true when the path given begins with [md:], with or without a user,
    and for every other path it raises [AttributeError]. *)
Theorem is_motherduck_never_answers_no
    (Path : Type) (of_str : string -> Path) (parent : Path -> Path)
    (stem suffix : Path -> string) (joinpath : Path -> string -> Path)
    (absolute : Path -> Path) (path : string) (username : option string) :
  ClientPath.is_motherduck Path
    (ClientPath.__init__ Path of_str parent stem suffix joinpath absolute
       path username)
  = if Str.startswith "md:" path then Ok true else Raise AttributeError.
Proof.
  unfold ClientPath.is_motherduck, ClientPath.__init__. cbn [ClientPath.path].
  destruct (Str.startswith "md:" path) eqn:Hmd; [|done].
  destruct username as [u|]; [|by rewrite Hmd].
  by rewrite (CutFacts.startswith_app_l _ _ _ Hmd).
Qed.

(** ** The progress table *)

Lemma enumerate_lookup {X} (i j : nat) (l : list X) :
  enumerate i l !! j = (fun x => (i + j, x)) <$> l !! j.
Proof.
  revert i j. induction l as [|x l IH]; intros i j; [done|].
  destruct j as [|j]; simpl.
  - by rewrite Nat.add_0_r.
  - rewrite IH. by replace (S i + j) with (i + S j) by lia.
Qed.

Lemma length_enumerate {X} (i : nat) (l : list X) :
  length (enumerate i l) = length l.
Proof. revert i. induction l as [|x l IH]; intros i; simpl; by rewrite ?IH. Qed.

(** The slice is what is left when the first items are dropped. *)
Lemma last_items_drop {X} (n : Z) (l : list X) :
  ∃ m,
    last_items n l = drop m l
    ∧ m ≤ length l
    ∧ length l - m
      = if (0 <? n)%Z then Nat.min (Z.to_nat n) (length l)
        else length l - Z.to_nat (- n).
Proof.
  unfold last_items. destruct (0 <? n)%Z.
  - exists (length l - Z.to_nat n). split; [done|]. lia.
  - exists (Nat.min (Z.to_nat (- n)) (length l)). split; [|lia].
    destruct (decide (Z.to_nat (- n) ≤ length l)) as [Hle|Hgt].
    + by rewrite Nat.min_l.
    + rewrite Nat.min_r by lia. by rewrite !drop_ge by lia.
Qed.

Lemma progress_rows_ok st items rows :
  progress_rows st items = Ok rows →
  length rows = length items
  ∧ ∀ j row,
      rows !! j = Some row →
      ∃ item, items !! j = Some item ∧ progress_row st item = Ok row.
Proof.
  revert rows. induction items as [|item items IH]; intros rows; simpl.
  - intros [= <-]. split; [done|]. intros j row Hj.
    by rewrite lookup_nil in Hj.
  - destruct (progress_row st item) as [row0|] eqn:Hrow; [|done].
    cbn [bind]. destruct (progress_rows st items) as [rows0|]; [|done].
    cbn [bind]. intros [= <-]. destruct (IH rows0 eq_refl) as [Hlen Hrows].
    split; [simpl; by rewrite Hlen|].
    intros [|j] row Hj; simpl in Hj.
    + injection Hj as <-. by exists item.
    + by apply Hrows.
Qed.

Lemma progress_rows_raise st items e :
  progress_rows st items = Raise e →
  ∃ item, item ∈ items ∧ progress_row st item = Raise e.
Proof.
  induction items as [|item items IH]; simpl; [done|].
  destruct (progress_row st item) as [row0|e0] eqn:Hrow.
  - cbn [bind]. destruct (progress_rows st items) as [rows0|e1]; [done|].
    cbn [bind]. intros [= <-]. destruct (IH eq_refl) as (item' & Hin & Hraise).
    exists item'. split; [|done]. apply elem_of_cons. by right.
  - cbn [bind]. intros [= <-]. exists item. split; [|done].
    apply elem_of_cons. by left.
Qed.

Lemma dag_getitem_raises k d e : dag_getitem k d = Raise e → e = KeyError.
Proof.
  unfold dag_getitem. destruct (List.find _ _); [done|]. by intros [= <-].
Qed.

(** X17. The progress table. A silent or print-only run has none. Otherwise
    the rows stand for the views of the execution order that were not in
    the cache, each numbered by its rank among them, from one, with its view,
    status and duration; they are the last [show] of them when [show] is
    positive, all of them when [show] is zero, and all but the first [-show]
    when it is negative. The table fails, with [KeyError], only on a view of
    the execution order that the graph does not hold. *)
Theorem display_progress_rows
    (flags : Flags) (show : Z) (cache : gset view_key) (st : Engine) :
  match display_progress flags show cache st with
  | Ok None => quiet flags = true
  | Ok (Some rows) =>
      quiet flags = false
      ∧ length rows
        = (if (0 <? show)%Z
           then Nat.min (Z.to_nat show) (length (not_done cache st))
           else length (not_done cache st) - Z.to_nat (- show))
      ∧ ∀ j row,
          rows !! j = Some row →
          row_index row = length (not_done cache st) - length rows + j + 1
          ∧ ∃ k,
              not_done cache st !! (row_index row - 1) = Some k
              ∧ dag_getitem k (dag st) = Ok (row_view row)
              ∧ row_status row = progress_status st k
              ∧ row_duration row = progress_duration st k
  | Raise e =>
      quiet flags = false
      ∧ e = KeyError
      ∧ ∃ k,
          k ∈ execution_order st
          ∧ (k ∉ cache)
          ∧ dag_getitem k (dag st) = Raise KeyError
  end.
Proof.
  unfold display_progress. destruct (quiet flags); [done|].
  destruct (last_items_drop show (enumerate 1 (not_done cache st)))
    as (m & -> & Hm & Hlen).
  rewrite length_enumerate in Hm, Hlen.
  destruct (progress_rows st (drop m (enumerate 1 (not_done cache st))))
    as [rows|e] eqn:Hrows; cbn [bind].
  - apply progress_rows_ok in Hrows as [Hlength Hrows].
    rewrite length_drop, length_enumerate in Hlength.
    split; [done|]. split; [by rewrite Hlength|].
    intros j row Hj. destruct (Hrows j row Hj) as ([i k] & Hitem & Hrow).
    rewrite lookup_drop, enumerate_lookup in Hitem.
    destruct (not_done cache st !! (m + j)) as [k'|] eqn:Hk; [|done].
    simpl in Hitem. injection Hitem as <- <-.
    unfold progress_row in Hrow. cbn [fst snd] in Hrow.
    destruct (dag_getitem k' (dag st)) as [view|] eqn:Hview; [|done].
    cbn [bind] in Hrow. injection Hrow as <-. cbn [row_index row_view
      row_status row_duration].
    split; [lia|]. exists k'. replace (S (m + j) - 1) with (m + j) by lia.
    done.
  - split; [done|]. apply progress_rows_raise in Hrows as ([i k] & Hin & Hrow).
    unfold progress_row in Hrow. cbn [fst snd] in Hrow.
    destruct (dag_getitem k (dag st)) as [view|e'] eqn:Hview; [done|].
    cbn [bind] in Hrow. injection Hrow as ->.
    pose proof (dag_getitem_raises _ _ _ Hview) as ->.
    split; [done|]. exists k.
    apply list_elem_of_lookup in Hin as (j & Hj).
    rewrite lookup_drop, enumerate_lookup in Hj.
    destruct (not_done cache st !! (m + j)) as [k'|] eqn:Hk; [|done].
    simpl in Hj. injection Hj as _ <-.
    apply list_elem_of_lookup_2 in Hk. unfold not_done in Hk.
    apply list_elem_of_filter in Hk as [Hcache Horder]. done.
Qed.

(** ** What the cleanup drops *)

Lemma drops_app tr tr' : drops (tr ++ tr') = drops tr ++ drops tr'.
Proof. apply omap_app. Qed.

Lemma drops_none tr : Forall not_delete tr → drops tr = [].
Proof.
  induction 1 as [|e tr He _ IH]; [done|].
  change (e :: tr) with ([e] ++ tr). rewrite drops_app, IH.
  by destruct e.
Qed.

Lemma elem_of_drops tr k t : (k, t) ∈ drops tr ↔ Delete k t ∈ tr.
Proof.
  unfold drops. rewrite list_elem_of_omap. split.
  - intros ([m|k' t'|k' job|rows|k' e] & Hin & Hsome); simplify_eq. done.
  - intros Hin. by exists (Delete k t).
Qed.

Section Drops.

Variable client : DuckDB.
Variable flags : Flags.
Variable world : World.

(** The events of one turn of the cleanup are those owed to the row. *)
Lemma cleanup_events_owed (d : Dag) (row : string * string) :
  cleanup_events client flags d
    (path_stem client +:+ "." +:+ row.1 +:+ "." +:+ row.2)
  = orphan_events client flags d row.
Proof.
  unfold cleanup_events, orphan_events. cbn zeta.
  destruct (_table_reference_to_view_key client _) as [[|schema name]|e]
    eqn:Hk; [|done|done].
  by apply derived_key_nonempty in Hk.
Qed.

(** One pass of the cleanup returns, and what it adds to the trace is what
    is owed to the rows of the store, row by row. *)
Lemma remove_orphans_owed (st : Engine) :
  remove_orphans client flags world st
  = (Ok tt,
     with_trace
       (trace st
        ++ flat_map (orphan_events client flags (dag st)) (duckdb_tables world))
       st).
Proof.
  rewrite remove_orphans_enumerated. do 2 f_equal. f_equal.
  unfold list_tables. induction (duckdb_tables world) as [|row rows IH];
    [done|].
  simpl. by rewrite IH, cleanup_events_owed.
Qed.

(** With a file stem free of dots, the reference of a row is read behind
    the stem, and the table that its key names is the table of the row. *)
Lemma enumerated_row_named (row : string * string) :
  Str.contains "." (path_stem client) = false →
  ∃ schema name,
    _table_reference_to_view_key client
      (path_stem client +:+ "." +:+ row.1 +:+ "." +:+ row.2)
    = Ok (schema :: name)
    ∧ schema +:+ "." +:+ Str.join _SEP name = row.1 +:+ "." +:+ row.2.
Proof.
  intros Hstem.
  pose proof (to_view_key_cases client
                (path_stem client +:+ "." +:+ row.1 +:+ "." +:+ row.2))
    as Hcases.
  rewrite (StrFacts.find_sep_dot _ _ Hstem), String.eqb_refl in Hcases.
  destruct (SplitFacts.find_sep_some "." row.1 row.2) as (s & t & Hcut).
  rewrite Hcut in Hcases. exists s, (Str.split_upto (String.length t) _SEP t).
  split; [exact Hcases|].
  rewrite CutFacts.join_split_upto.
  by apply SplitFacts.find_sep_spec in Hcut.
Qed.

(** The drops of a run: none when it stops before the cleanup, else those
    owed to the rows of the store in the graph that was built. *)
Lemma run_drops (fuel : nat) :
  let tr := trace ((run client flags world fuel (initial world)).2) in
  match make_dag world (managed_views world) with
  | Raise _ => tr = []
  | Ok d =>
      match _make_table_reference_mapping d client
              (run_selection flags world d) (freeze_unselected flags) with
      | Raise _ => drops tr = [] ∧ submissions tr = []
      | Ok _ =>
          drops tr
          = drops (flat_map (orphan_events client flags d)
                     (duckdb_tables world))
      end
  end.
Proof.
  cbn zeta.
  remember (run client flags world fuel (initial world)) as outcome eqn:Hrun.
  revert Hrun. unfold run, run_selection.
  destruct (make_dag world (managed_views world)) as [d|e] eqn:Hd.
  2: { rewrite seq_lift_raise. by intros ->. }
  rewrite seq_lift_ok, seq_modify. unfold seq at 1.
  rewrite console_log_logs. fields.
  set (logged := if quiet flags then [] else [Log _]).
  assert (drops logged = [] ∧ submissions logged = []) as [Hlogd Hlogs].
  { subst logged. by destruct (quiet flags). }
  destruct (_make_table_reference_mapping d client _ (freeze_unselected flags))
    as [mapping|e].
  2: { rewrite seq_lift_raise. intros ->. cbn [snd]. fields.
       change (trace (initial world)) with (@nil event).
       by rewrite app_nil_l. }
  rewrite seq_lift_ok. unfold seq at 1.
  rewrite remove_orphans_owed. fields.
  match goal with |- _ = _ (with_trace ?tr ?s) → _ =>
    destruct (after_cleanup_emits client flags world
                (match select flags with
                 | [] => list_to_set (dag_keys d)
                 | _ => dag_select world d (select flags)
                 end) mapping fuel (with_trace tr s))
      as (post & Hpost & Hnodel)
  end.
  intros ->. rewrite Hpost. fields.
  change (trace (initial world)) with (@nil event).
  rewrite !drops_app, Hlogd, (drops_none post Hnodel).
  by rewrite app_nil_r.
Qed.

End Drops.


Lemma elem_of_flat_map {X Y} (f : X -> list Y) (l : list X) (y : Y) :
  y ∈ flat_map f l ↔ ∃ x, x ∈ l ∧ y ∈ f x.
Proof.
  induction l as [|x l IH]; simpl.
  - rewrite elem_of_nil. split; [done|]. intros (x & Hx & _).
    by apply elem_of_nil in Hx.
  - rewrite elem_of_app, IH. split.
    + intros [Hy|(x' & Hx' & Hy)].
      * exists x. split; [apply elem_of_cons; by left|done].
      * exists x'. split; [apply elem_of_cons; by right|done].
    + intros (x' & [->|Hx']%elem_of_cons & Hy); [by left|].
      right. by exists x'.
Qed.

(** X5. The table of a view of the graph is never dropped. For a key of
    the graph that a run built, with a file stem and a schema free of dots and
    a separable name: the table written for the key is [schema.name], the
    reference under which [list_tables] enumerates that table is read back as
    the key, the cleanup statement on that reference returns and leaves the
    state as it is, and no [DROP TABLE] of the run names that table. *)
Theorem table_of_a_view_is_no_orphan
    (client : DuckDB) (flags : Flags) (world : World) (fuel : nat) (d : Dag)
    (schema : string) (name : list string) :
  make_dag world (managed_views world) = Ok d →
  schema :: name ∈ dag_keys d →
  Str.contains "." (path_stem client) = false →
  Str.contains "." schema = false →
  name ≠ [] →
  separable name →
  let table := schema +:+ "." +:+ Str.join _SEP name in
  _view_key_to_table_reference client (schema :: name) false = Ok table
  ∧ list_tables client [(schema, Str.join _SEP name)]
    = [path_stem client +:+ "." +:+ table]
  ∧ _table_reference_to_view_key client (path_stem client +:+ "." +:+ table)
    = Ok (schema :: name)
  ∧ (∀ st,
       dag st = d →
       remove_orphan client flags (path_stem client +:+ "." +:+ table) st
       = (Ok tt, st))
  ∧ (∀ k dropped,
       Delete k dropped
       ∈ trace ((run client flags world fuel (initial world)).2) →
       dropped ≠ table).
Proof.
  intros Hd Hin Hstem Hschema Hname Hsep table.
  pose proof (enumerated_reference_of_key client schema name
                Hstem Hschema Hname Hsep) as Hkey.
  split; [done|]. split; [done|]. split; [exact Hkey|]. split.
  - intros st Hst. unfold remove_orphan. subst table. rewrite Hkey.
    rewrite seq_lift_ok, seq_gets, Hst. unfold dag_contains.
    by rewrite bool_decide_eq_true_2.
  - intros k dropped Hdrop ->. apply elem_of_drops in Hdrop.
    pose proof (run_drops client flags world fuel) as Hrun. cbn zeta in Hrun.
    rewrite Hd in Hrun.
    destruct (_make_table_reference_mapping d client _ _) as [mapping|e].
    2: { destruct Hrun as [Hnone _]. rewrite Hnone in Hdrop.
         by apply elem_of_nil in Hdrop. }
    rewrite Hrun in Hdrop. apply elem_of_drops in Hdrop.
    apply elem_of_flat_map in Hdrop as (row & _ & Hevent).
    destruct (enumerated_row_named client row Hstem)
      as (s & n & Hrow & Hnamed).
    unfold orphan_events in Hevent. cbn zeta in Hevent.
    rewrite Hrow in Hevent. case_bool_decide as Hout.
    { by apply elem_of_nil in Hevent. }
    assert (s +:+ "." +:+ Str.join _SEP n = table ∧ k = s :: n) as [Heq ->].
    { apply elem_of_app in Hevent as [Hevent|Hevent].
      - destruct (dry flags); [by apply elem_of_nil in Hevent|].
        apply list_elem_of_singleton in Hevent. by injection Hevent as -> ->.
      - destruct (print_views flags || silent flags);
          [by apply elem_of_nil in Hevent|].
        by apply list_elem_of_singleton in Hevent. }
    rewrite Heq in Hnamed. rewrite <- Hnamed in Hrow.
    subst table. rewrite Hkey in Hrow. injection Hrow as <- <-. done.
Qed.

Lemma table_of_a_view_is_no_orphan_witness :
  _view_key_to_table_reference warehouse ["core"; "a"] false = Ok "core.a"
  ∧ _table_reference_to_view_key warehouse "warehouse.core.a"
    = Ok ["core"; "a"]
  ∧ (∀ st,
       dag st = Sample.line →
       remove_orphan warehouse Sample.flags "warehouse.core.a" st = (Ok tt, st))
  ∧ (∀ k dropped,
       Delete k dropped
       ∈ trace
           ((run warehouse Sample.flags Sample.with_orphans 10
               (initial Sample.with_orphans)).2) →
       dropped ≠ "core.a").
Proof.
  assert (["core"; "a"] ∈ dag_keys Sample.line) as Hin
    by (apply (bool_decide_unpack _); vm_compute; exact I).
  assert (separable ["a"]) as Hsep by (split; repeat constructor).
  destruct (table_of_a_view_is_no_orphan warehouse Sample.flags
              Sample.with_orphans 10 Sample.line "core" ["a"] eq_refl Hin
              eq_refl eq_refl ltac:(discriminate) Hsep)
    as (Hwritten & _ & Hread & Hleft & Hkept).
  split; [exact Hwritten|]. split; [exact Hread|]. split; [exact Hleft|].
  exact Hkept.
Defined.

(** ** A run, step by step *)

Section RunSteps.

Variable client : DuckDB.
Variable flags : Flags.
Variable world : World.

(** With no failure on record, what follows the loop removes the cache
    file, prints the summary unless the run is quiet, and returns. *)
Lemma finish_clean cache st :
  clean st →
  finish flags cache st
  = (Ok tt,
     with_trace
       (trace st
        ++ (if quiet flags then []
            else [Log Took;
                  Summary (summary_rows (with_cache_file None st))]))
       (with_cache_file None st)).
Proof.
  intros [Hexc Hskip]. unfold finish, save_cache. rewrite seq_modify.
  unfold new_cache. rewrite Hexc, Hskip. simpl Dict.is_empty. cbn [andb].
  case_bool_decide; [|done]. case_bool_decide; [|done].
  unfold summary. destruct (quiet flags).
  - unfold ret. rewrite app_nil_r. by destruct st.
  - rewrite seq_emit, seq_gets, seq_emit. unfold id. fields.
    rewrite Hexc. simpl. unfold ret. fields.
    by rewrite <- app_assoc.
Qed.

(** [run], from the first line to the last. *)
Lemma run_unfold fuel :
  run client flags world fuel (initial world)
  = match make_dag world (managed_views world) with
    | Raise e => (Raise e, initial world)
    | Ok d =>
        let selected := run_selection flags world d in
        let logged :=
          if quiet flags then []
          else [Log (Selected (size selected)
                       (length (managed_views world)))] in
        match _make_table_reference_mapping d client selected
                (freeze_unselected flags) with
        | Raise e => (Raise e, with_trace logged (with_dag d (initial world)))
        | Ok mapping =>
            let cache := load_cache flags (cache_pkl world) in
            let told :=
              if quiet flags then []
              else [Log (AlreadyDone (size cache))] in
            let before :=
              with_dag (dag_prepare d)
                (with_trace
                   ((logged
                     ++ flat_map (orphan_events client flags d)
                          (duckdb_tables world))
                    ++ told)
                   (initial world)) in
            match loop client flags world selected mapping cache fuel before
            with
            | (Ok true, st) =>
                match finish flags cache st with
                | (Ok _, st') => (Ok true, st')
                | (Raise e, st') => (Raise e, st')
                end
            | (Ok false, st) => (Ok false, st)
            | (Raise e, st) => (Raise e, st)
            end
        end
    end.
Proof.
  unfold run, run_selection.
  destruct (make_dag world (managed_views world)) as [d|e] eqn:Hd.
  2: { by rewrite seq_lift_raise. }
  rewrite seq_lift_ok, seq_modify. unfold seq at 1.
  rewrite console_log_logs. fields. cbn zeta.
  destruct (_make_table_reference_mapping d client _ (freeze_unselected flags))
    as [mapping|e].
  2: { by rewrite seq_lift_raise. }
  rewrite seq_lift_ok. unfold seq at 1.
  rewrite remove_orphans_owed. fields.
  rewrite seq_gets. fields. unfold seq at 1.
  rewrite console_log_logs. fields. rewrite seq_modify. fields.
  change (cache_file (initial world)) with (cache_pkl world).
  change (trace (initial world)) with (@nil event). rewrite app_nil_l.
  unfold seq at 1.
  match goal with
  | |- (let (r, st') := loop _ _ _ _ _ _ _ ?s in _) = _ =>
      change s with
        (with_dag (dag_prepare d)
           (with_trace
              (((if quiet flags then []
                 else [Log (Selected
                              (size (match select flags with
                                     | [] => list_to_set (dag_keys d)
                                     | _ => dag_select world d (select flags)
                                     end))
                              (length (managed_views world)))])
                ++ flat_map (orphan_events client flags d)
                     (duckdb_tables world))
               ++ (if quiet flags then []
                   else [Log (AlreadyDone
                                (size (load_cache flags (cache_pkl world))))]))
              (initial world)))
  end.
  destruct (loop client flags world _ mapping _ fuel _) as [[[|]|e] st];
    [|done|done].
  unfold seq. by destruct (finish flags _ st) as [[[]|e] st'].
Qed.

End RunSteps.

(** ** A failing job and the record of failures *)

Section FailFast.

Variable client : DuckDB.
Variable flags : Flags.
Variable world : World.

(** The loop does not read [fail_fast]. *)
Lemma loop_fail_fast b selected mapping cache fuel st :
  loop client (with_fail_fast b flags) world selected mapping cache fuel st
  = loop client flags world selected mapping cache fuel st.
Proof.
  revert st. induction fuel as [|fuel IH]; intros st; [done|].
  simpl. rewrite !seq_gets. destruct (dag_is_active (dag st)); [|done].
  unfold seq.
  change (cycle client (with_fail_fast b flags) world selected mapping cache)
    with (cycle client flags world selected mapping cache).
  destruct (cycle client flags world selected mapping cache st)
    as [[[]|e] st1]; [apply IH|done].
Qed.

(** The outcome of a run, state included, is the same with and without
    [fail_fast]. *)
Lemma run_fail_fast b fuel :
  run client (with_fail_fast b flags) world fuel (initial world)
  = run client flags world fuel (initial world).
Proof.
  rewrite !run_unfold.
  destruct (make_dag world (managed_views world)) as [d|e]; [|done].
  cbn zeta.
  change (run_selection (with_fail_fast b flags) world d)
    with (run_selection flags world d).
  change (freeze_unselected (with_fail_fast b flags))
    with (freeze_unselected flags).
  change (quiet (with_fail_fast b flags)) with (quiet flags).
  destruct (_make_table_reference_mapping d client _ (freeze_unselected flags))
    as [mapping|e]; [|done].
  change (load_cache (with_fail_fast b flags) (cache_pkl world))
    with (load_cache flags (cache_pkl world)).
  change (flat_map (orphan_events client (with_fail_fast b flags) d))
    with (flat_map (orphan_events client flags d)).
  rewrite loop_fail_fast.
  match goal with |- context [loop client flags world ?sel mapping ?c fuel ?s] =>
    pose proof (loop_records_no_failure client flags world sel mapping c fuel
                  (cache_file s) s) as Hloop;
    destruct (loop client flags world sel mapping c fuel s)
      as [[[|]|e] st] eqn:Hended
  end; [|done|done].
  cbn [snd] in Hloop. destruct Hloop as [Hclean _]; [done|].
  rewrite !finish_clean by done.
  by change (quiet (with_fail_fast b flags)) with (quiet flags).
Qed.

(** The cache file at the end of a run: removed when the run returns with
    its loop ended, as it was found otherwise. *)
Lemma run_cache_file fuel :
  cache_file ((run client flags world fuel (initial world)).2)
  = match (run client flags world fuel (initial world)).1 with
    | Ok true => None
    | _ => cache_pkl world
    end.
Proof.
  rewrite run_unfold.
  destruct (make_dag world (managed_views world)) as [d|e]; [|done].
  cbn zeta.
  destruct (_make_table_reference_mapping d client _ (freeze_unselected flags))
    as [mapping|e]; [|done].
  match goal with |- context [loop client flags world ?sel mapping ?c fuel ?s] =>
    pose proof (loop_records_no_failure client flags world sel mapping c fuel
                  (cache_pkl world) s) as Hloop;
    destruct (loop client flags world sel mapping c fuel s)
      as [[[|]|e] st] eqn:Hended
  end; cbn [snd] in Hloop;
    (destruct Hloop as [Hclean Hfile]; [done|]); [|done|done].
  by rewrite finish_clean.
Qed.

End FailFast.

(** C3, on the code. The save block is reached only by a run in which no
    job failed, and such a run removes the cache file; a run in which a job
    fails is left by the exception of that job before the block, so the cache
    file stays as it was found. In the sample run over the line [a], [b],
    [c] the job of [a] succeeds and the job of [b] fails: the cache that was
    loaded, [core.old], is all that is on file afterwards, without [a]. *)
Theorem C3_failed_run_leaves_the_cache_as_found :
  (∀ client flags world fuel,
     persisted ((run client flags world fuel (initial world)).2)
     = match (run client flags world fuel (initial world)).1 with
       | Ok true => ∅
       | _ => default ∅ (cache_pkl world)
       end)
  ∧ (let after :=
       run warehouse Sample.flags MoreSamples.b_fails 20
         (initial MoreSamples.b_fails) in
     after.1 = Raise (JobError "boom")
     ∧ Dict.keys (jobs_ended_at after.2) = [Sample.a; Sample.b]
     ∧ future_exception MoreSamples.b_fails after.2 Sample.a = None
     ∧ future_exception MoreSamples.b_fails after.2 Sample.b
       = Some (JobError "boom")
     ∧ exceptions after.2 = []
     ∧ skipped after.2 = ∅
     ∧ load_cache Sample.flags (cache_pkl MoreSamples.b_fails)
       = {[ ["core"; "old"] ]}
     ∧ persisted after.2 = {[ ["core"; "old"] ]}
     ∧ Sample.a ∉ persisted after.2).
Proof.
  split.
  - intros client flags world fuel. unfold persisted.
    rewrite run_cache_file.
    by destruct (run client flags world fuel (initial world)).1 as [[|]|].
  - cbn zeta. split_and!; try (vm_compute; reflexivity).
    apply (bool_decide_unpack _). vm_compute. exact I.
Qed.

(** C4, on the code. [fail_fast] changes nothing in a run: the outcome,
    the state it leaves and everything it emits are the same with the flag
    set and unset, because the one line that reads it stands behind the
    check of a record of failures that no run fills. In the sample run two
    independent views are submitted and the job of [a] fails: with
    [fail_fast] unset the run does not return but raises the exception of
    the job, and with [fail_fast] set it raises that same exception, not
    the aggregate one, with the graph undrained and the cache not saved. *)
Theorem C4_fail_fast_changes_nothing :
  (∀ client flags world fuel b,
     run client (with_fail_fast b flags) world fuel (initial world)
     = run client flags world fuel (initial world))
  ∧ (let after :=
       run warehouse Sample.flags Sample.a_fails_b_runs 20
         (initial Sample.a_fails_b_runs) in
     fail_fast Sample.flags = false
     ∧ after.1 = Raise (JobError "boom"))
  ∧ (let after :=
       run warehouse Sample.fail_fast_only Sample.a_fails_b_runs 20
         (initial Sample.a_fails_b_runs) in
     fail_fast Sample.fail_fast_only = true
     ∧ after.1 = Raise (JobError "boom")
     ∧ after.1 ≠ Raise (Exception "Some views failed to build")
     ∧ dag_is_active (dag after.2) = true
     ∧ exceptions after.2 = []
     ∧ cache_file after.2 = cache_pkl Sample.a_fails_b_runs).
Proof.
  split; [|split].
  - intros client flags world fuel b. apply run_fail_fast.
  - cbn zeta. split; [reflexivity|]. vm_compute. reflexivity.
  - cbn zeta. split_and!; try (vm_compute; reflexivity).
    vm_compute. discriminate.
Qed.

(** ** Every handled view is dispatched *)

Section Returning.

Variable I : Engine -> Prop.

Lemma keeps_returning_ret {A} (a : A) : keeps_returning I (ret a).
Proof. by intros st. Qed.

Lemma keeps_returning_gets {A} (f : Engine -> A) :
  keeps_returning I (gets f).
Proof. by intros st. Qed.

Lemma keeps_returning_modify (f : Engine -> Engine) :
  (∀ st, I st → I (f st)) → keeps_returning I (modify f).
Proof. intros Hf st. apply Hf. Qed.

Lemma keeps_returning_seq {A B} (m : M A) (k : A -> M B) :
  keeps_returning I m → (∀ a, keeps_returning I (k a)) →
  keeps_returning I (seq m k).
Proof.
  intros Hm Hk st Hst. unfold seq. specialize (Hm st Hst).
  destruct (m st) as [[a|e] st1]; [by apply Hk|done].
Qed.

Lemma keeps_returning_for_each {X} (l : list X) (f : X -> M unit) :
  (∀ x, keeps_returning I (f x)) → keeps_returning I (for_each l f).
Proof.
  intros Hf. induction l as [|x l IH]; simpl; [apply keeps_returning_ret|].
  apply keeps_returning_seq; [apply Hf|]. by intros _.
Qed.

End Returning.

Section Dispatched.

Variable client : DuckDB.
Variable flags : Flags.
Variable world : World.

Lemma handle_ready_dispatches selected mapping cache v :
  keeps_returning all_dispatched
    (handle_ready client flags world selected mapping cache v).
Proof.
  intros st [[Hexc Hskip] Hjobs].
  destruct (handle_ready_cases client flags world selected mapping cache v st)
    as [[_ ->]|[(_ & e & ->)|[(_ & _ & view & deps & _ & _ & Hany)
                             |(_ & view & _ & ->)]]].
  - done.
  - done.
  - rewrite Hexc, Hskip in Hany.
    by apply any_dependency_failed_clean in Hany.
  - unfold all_dispatched, clean. fields. split; [done|].
    apply Forall_app. split.
    + eapply Forall_impl; [exact Hjobs|]. intros k Hk.
      apply elem_of_keys_set. by right.
    + apply Forall_singleton, elem_of_keys_set. by left.
Qed.

Lemma poll_job_dispatches v :
  keeps_returning all_dispatched (poll_job world v).
Proof.
  intros st Hst. unfold poll_job. rewrite seq_gets. unfold id.
  destruct (negb (Dict.mem v (jobs_ended_at st)) && future_done world st v);
    [|done].
  unfold mark_done. rewrite !seq_modify. fields.
  destruct (future_exception world st v); [by rewrite seq_raise|done].
Qed.

Lemma loop_dispatches selected mapping cache fuel :
  keeps_returning all_dispatched
    (loop client flags world selected mapping cache fuel).
Proof.
  induction fuel as [|fuel IH]; simpl; [apply keeps_returning_ret|].
  apply keeps_returning_seq; [apply keeps_returning_gets|]. intros d.
  destruct (dag_is_active d); [|apply keeps_returning_ret].
  apply keeps_returning_seq; [|by intros _].
  unfold cycle. apply keeps_returning_seq.
  { intros st Hst. unfold get_ready.
    by destruct (dag_get_ready (dag st)) as [ready d']. }
  intros ready. apply keeps_returning_seq.
  { apply keeps_returning_for_each. intros v.
    apply handle_ready_dispatches. }
  intros _. apply keeps_returning_seq; [apply keeps_returning_gets|].
  intros started. apply keeps_returning_seq.
  { apply keeps_returning_for_each. intros v. apply poll_job_dispatches. }
  intros _. by apply keeps_returning_modify.
Qed.

(** A run that returns has dispatched every view that it handled; no run
    skips a view. *)
Lemma run_dispatches fuel :
  skipped ((run client flags world fuel (initial world)).2) = ∅
  ∧ match (run client flags world fuel (initial world)).1 with
    | Ok _ =>
        Forall
          (fun k =>
             k ∈ Dict.keys (jobs (run client flags world fuel
                                    (initial world)).2))
          (execution_order (run client flags world fuel (initial world)).2)
    | Raise _ => True
    end.
Proof.
  rewrite run_unfold.
  destruct (make_dag world (managed_views world)) as [d|e]; [|done].
  cbn zeta.
  destruct (_make_table_reference_mapping d client _ (freeze_unselected flags))
    as [mapping|e]; [|done].
  match goal with |- context [loop client flags world ?sel mapping ?c fuel ?s] =>
    pose proof (loop_records_no_failure client flags world sel mapping c fuel
                  (cache_pkl world) s) as Hclean;
    pose proof (loop_dispatches sel mapping c fuel s) as Hloop;
    destruct (loop client flags world sel mapping c fuel s)
      as [[[|]|e] st] eqn:Hended
  end; cbn [snd] in Hclean;
    (destruct Hclean as [[Hexc Hskip] _]; [done|]).
  - rewrite finish_clean by done. cbn [fst snd]. fields.
    split; [done|]. apply Hloop. split; [done|]. constructor.
  - split; [done|]. apply Hloop. split; [done|]. constructor.
  - done.
Qed.

End Dispatched.

(** C5, on the code. No run ever skips a view: the skipped set is empty at
    the end of every run, and a run that returns has stored a job for every
    view that it handled. The cascade has nothing to start from, because the
    failure of a job is never recorded: it leaves the run. In the sample run
    over the line [a], [b], [c], with every view selected, the job of [a]
    fails; the run raises the exception of that job, and [b] and [c], which
    descend from [a], are neither skipped nor marked done. *)
Theorem C5_no_view_is_ever_skipped :
  (∀ client flags world fuel,
     skipped ((run client flags world fuel (initial world)).2) = ∅
     ∧ match (run client flags world fuel (initial world)).1 with
       | Ok _ =>
           Forall
             (fun k =>
                k ∈ Dict.keys (jobs (run client flags world fuel
                                       (initial world)).2))
             (execution_order
                (run client flags world fuel (initial world)).2)
       | Raise _ => True
       end)
  ∧ (let after :=
       run warehouse Sample.flags Sample.line_world 20
         (initial Sample.line_world) in
     after.1 = Raise (JobError "boom")
     ∧ submissions (trace after.2) = [Sample.a]
     ∧ future_exception Sample.line_world after.2 Sample.a
       = Some (JobError "boom")
     ∧ exceptions after.2 = []
     ∧ skipped after.2 = ∅
     ∧ completed (dag after.2) = {[Sample.a]}
     ∧ (Sample.b ∉ skipped after.2)
     ∧ (Sample.c ∉ skipped after.2)
     ∧ (Sample.b ∉ completed (dag after.2))
     ∧ (Sample.c ∉ completed (dag after.2))).
Proof.
  split.
  - intros client flags world fuel. apply run_dispatches.
  - cbn zeta. split_and!; try (vm_compute; reflexivity);
      apply (bool_decide_unpack _); vm_compute; exact I.
Qed.

(** ** The client as [__init__] leaves it *)

Section EveryClient.

Variable Path : Type.
Variable stem : Path -> string.

#[local] Abbreviation to_view_key :=
  (ClientPath._table_reference_to_view_key Path stem).
#[local] Abbreviation to_reference :=
  (ClientPath._view_key_to_table_reference Path stem).

(** On a client over a database file the functions of the client are
    those of the record. *)
Lemma to_view_key_on_file (self : ClientPath.t Path) client t :
  ClientPath.on_file Path stem self = Some client →
  to_view_key self t = _table_reference_to_view_key client t.
Proof.
  unfold ClientPath.on_file, ClientPath._table_reference_to_view_key,
    ClientPath.stem_of, _table_reference_to_view_key.
  destruct (ClientPath.path Path self) as [s|p]; [done|].
  intros [= <-]. by destruct (Str.split "." (Some 1) t) as [[|a [|b [|c l]]]|].
Qed.

Lemma to_reference_on_file (self : ClientPath.t Path) client k w :
  ClientPath.on_file Path stem self = Some client →
  to_reference self k w = _view_key_to_table_reference client k w.
Proof.
  unfold ClientPath.on_file, ClientPath._view_key_to_table_reference,
    ClientPath.stem_of, _view_key_to_table_reference.
  destruct (ClientPath.path Path self) as [s|p]; [done|].
  intros [= <-]. destruct k as [|schema name]; [done|].
  unfold ClientPath.user_set, username_set. simpl.
  by destruct (w && _).
Qed.

(** On a client whose path is kept as a string no reference is read: one
    without a dot is refused, and any other stops at the stem of the
    path. *)
Lemma to_view_key_on_str (self : ClientPath.t Path) s t :
  ClientPath.path Path self = ClientPath.PathStr Path s →
  to_view_key self t
  = Raise (if Str.contains "." t then AttributeError else ValueError).
Proof.
  intros Hpath.
  unfold ClientPath._table_reference_to_view_key, ClientPath.stem_of.
  rewrite split_dot_once, Hpath. unfold Str.contains.
  by destruct (Str.find_sep "." t) as [[? ?]|].
Qed.

End EveryClient.

(** X2. Reading a table reference, on every client. A client whose path is
    kept as a string (an [md:] path) reads none: a reference without a dot
    raises [ValueError] and every other raises [AttributeError], at the stem
    of the path. A client on a database file does what its record does: it
    raises [ValueError] or gives a key with a schema free of dots and at
    least one name component, none of which holds the separator; a reference
    without a dot is refused, and one with two dots or more is always
    read. *)
Theorem table_reference_to_view_key_outcome
    (Path : Type) (stem : Path -> string) (self : ClientPath.t Path)
    (table_reference : string) :
  match ClientPath.on_file Path stem self with
  | None =>
      ClientPath._table_reference_to_view_key Path stem self table_reference
      = Raise (if Str.contains "." table_reference then AttributeError
               else ValueError)
  | Some client =>
      ClientPath._table_reference_to_view_key Path stem self table_reference
      = _table_reference_to_view_key client table_reference
      ∧ match
          ClientPath._table_reference_to_view_key Path stem self
            table_reference
        with
        | Ok key =>
            ∃ schema name,
              key = schema :: name
              ∧ name ≠ []
              ∧ Str.contains "." schema = false
              ∧ Forall (fun c => Str.contains _SEP c = false) name
        | Raise e =>
            e = ValueError
            ∧ ∀ a b c, table_reference ≠ a +:+ "." +:+ b +:+ "." +:+ c
        end
      ∧ (if Str.contains "." table_reference then True
         else ClientPath._table_reference_to_view_key Path stem self
                table_reference
              = Raise ValueError)
  end.
Proof.
  destruct (ClientPath.on_file Path stem self) as [client|] eqn:Hfile.
  - rewrite (to_view_key_on_file Path stem self client _ Hfile).
    split; [done|]. apply to_view_key_outcome.
  - unfold ClientPath.on_file in Hfile.
    destruct (ClientPath.path Path self) as [s|p] eqn:Hpath; [|done].
    by eapply to_view_key_on_str.
Qed.

Section EveryMapping.

Variable Path : Type.
Variable stem : Path -> string.

#[local] Abbreviation to_reference :=
  (ClientPath._view_key_to_table_reference Path stem).

(** A client that never reads the stem of a path it does not have writes
    references as its record does. *)
Lemma to_reference_as (self : ClientPath.t Path) client k w :
  username client = ClientPath.user Path self →
  (ClientPath.user_set Path self = true →
   ClientPath.on_file Path stem self = Some client) →
  to_reference self k w = _view_key_to_table_reference client k w.
Proof.
  intros Huser Hfile.
  unfold ClientPath._view_key_to_table_reference, _view_key_to_table_reference.
  destruct k as [|schema name]; [done|].
  assert (username_set client = ClientPath.user_set Path self) as ->.
  { unfold username_set, ClientPath.user_set. by rewrite Huser. }
  destruct (ClientPath.user_set Path self) eqn:Hset;
    [|by rewrite andb_false_r].
  destruct w; [|done]. cbn [andb].
  specialize (Hfile eq_refl). unfold ClientPath.on_file in Hfile.
  unfold ClientPath.stem_of.
  destruct (ClientPath.path Path self) as [s|p]; [done|].
  by injection Hfile as <-.
Qed.

Lemma reference_mapping_as (self : ClientPath.t Path) client keys acc :
  username client = ClientPath.user Path self →
  (ClientPath.user_set Path self = true →
   ClientPath.on_file Path stem self = Some client) →
  ClientPath.reference_mapping Path stem self keys acc
  = reference_mapping client keys acc.
Proof.
  intros Huser Hfile. revert acc.
  induction keys as [|k keys IH]; intros acc; [done|].
  simpl. rewrite !(to_reference_as self client _ _ Huser Hfile).
  destruct (_view_key_to_table_reference client k false) as [r|]; [|done].
  destruct (_view_key_to_table_reference client k true) as [p|]; [|done].
  cbn [bind]. apply IH.
Qed.

End EveryMapping.

(** X8. The default mode of [_make_table_reference_mapping], on every
    client. It returns a dictionary, or raises [ValueError] or
    [AttributeError]; it never ends without a value. On a client with a user
    whose path is kept as a string (an [md:] path) it returns, the empty
    dictionary, only for a graph without views; otherwise the first view
    key decides: an empty one raises [ValueError], any other
    [AttributeError], at the stem of the path. On every other client it
    raises exactly when the graph has an empty view key, and then
    [ValueError]. The dictionary returned maps the reference of every view
    of the graph to its user-scoped reference, and nothing else. *)
Theorem default_mapping_outcome
    (Path : Type) (stem : Path -> string) (d : Dag) (self : ClientPath.t Path)
    (selected : gset view_key) :
  match
    ClientPath._make_table_reference_mapping Path stem d self selected false
  with
  | Ok (Some m) =>
      Forall (fun k => k ≠ []) (dag_keys d)
      ∧ match
          ClientPath.on_file Path stem self, ClientPath.user_set Path self
        with
        | None, true => dag_keys d = []
        | _, _ => True
        end
      ∧ ∀ r p,
          m !! r = Some p
          ↔ ∃ k,
              k ∈ dag_keys d
              ∧ ClientPath._view_key_to_table_reference Path stem self k false
                = Ok r
              ∧ ClientPath._view_key_to_table_reference Path stem self k true
                = Ok p
  | Ok None => False
  | Raise e =>
      match
        ClientPath.on_file Path stem self, ClientPath.user_set Path self
      with
      | None, true =>
          ∃ k rest,
            dag_keys d = k :: rest
            ∧ e = (if bool_decide (k = []) then ValueError
                   else AttributeError)
      | _, _ => e = ValueError ∧ [] ∈ dag_keys d
      end
  end.
Proof.
  unfold ClientPath._make_table_reference_mapping. cbn [negb].
  destruct (ClientPath.on_file Path stem self) as [client|] eqn:Hfile;
    [|destruct (ClientPath.user_set Path self) eqn:Hset].
  - (* a client on a database file *)
    assert (username client = ClientPath.user Path self) as Huser.
    { unfold ClientPath.on_file in Hfile.
      destruct (ClientPath.path Path self); [done|]. by injection Hfile as <-. }
    rewrite (reference_mapping_as Path stem self client _ _ Huser
               (fun _ => Hfile)).
    pose proof (default_mapping_on_file d client selected) as Hrecord.
    unfold _make_table_reference_mapping in Hrecord. cbn [negb] in Hrecord.
    destruct (reference_mapping client (dag_keys d) ∅) as [m|e];
      cbn [bind] in *; [|by destruct (ClientPath.user_set Path self)].
    destruct Hrecord as [Hkeys Hlookup]. split; [done|].
    split; [by destruct (ClientPath.user_set Path self)|].
    intros r p. rewrite Hlookup. split.
    + intros [(k & Hk & Hr) ->]. exists k.
      rewrite !(to_reference_as Path stem self client _ _ Huser
                  (fun _ => Hfile)).
      split; [done|]. split; [done|]. by apply scoped_reference.
    + intros (k & Hk & Hr & Hp).
      rewrite (to_reference_as Path stem self client _ _ Huser
                 (fun _ => Hfile)) in Hr.
      rewrite (to_reference_as Path stem self client _ _ Huser
                 (fun _ => Hfile)) in Hp.
      split; [by exists k|].
      rewrite (scoped_reference client k r Hr) in Hp. by injection Hp.
  - (* a path kept as a string, with a user *)
    unfold ClientPath.on_file in Hfile.
    destruct (ClientPath.path Path self) as [s|p] eqn:Hpath; [|done].
    destruct (dag_keys d) as [|k rest] eqn:Hkeys.
    + simpl. split; [constructor|]. split; [done|]. intros r p.
      rewrite lookup_empty. split; [done|]. intros (k & Hk & _).
      by apply elem_of_nil in Hk.
    + destruct k as [|schema name].
      * simpl. exists [], rest. split; [done|]. by case_bool_decide.
      * cbn [ClientPath.reference_mapping
               ClientPath._view_key_to_table_reference andb bind].
        unfold ClientPath.stem_of. rewrite Hset, Hpath. cbn [bind].
        exists (schema :: name), rest. split; [done|]. by case_bool_decide.
  - (* a path kept as a string, without a user *)
    set (client := {| path_stem := ""; username := ClientPath.user Path self |}).
    assert (ClientPath.user_set Path self = true →
            ClientPath.on_file Path stem self = Some client) as Hnever
      by (rewrite Hset; done).
    rewrite (reference_mapping_as Path stem self client _ _ eq_refl Hnever).
    pose proof (default_mapping_on_file d client selected) as Hrecord.
    unfold _make_table_reference_mapping in Hrecord. cbn [negb] in Hrecord.
    destruct (reference_mapping client (dag_keys d) ∅) as [m|e];
      cbn [bind] in *; [|done].
    destruct Hrecord as [Hkeys Hlookup]. split; [done|]. split; [done|].
    intros r p. rewrite Hlookup. split.
    + intros [(k & Hk & Hr) ->]. exists k.
      rewrite !(to_reference_as Path stem self client _ _ eq_refl Hnever).
      split; [done|]. split; [done|]. by apply scoped_reference.
    + intros (k & Hk & Hr & Hp).
      rewrite (to_reference_as Path stem self client _ _ eq_refl Hnever)
        in Hr.
      rewrite (to_reference_as Path stem self client _ _ eq_refl Hnever)
        in Hp.
      split; [by exists k|].
      rewrite (scoped_reference client k r Hr) in Hp. by injection Hp.
Qed.
